(** * Seismic attributes: a shallow embedding of [seismic_attrs.py]

    The development follows the script function by function:
    [parse_range], [parse_patch], [load_segy_cube], [normalize_volume]
    and [coherence_3d].  Python integers are [Z], Python [str] values are
    [string] (ASCII), exceptions are the [Raise] branch of [result], and
    a 3-D [ndarray] is a list of planes, each a list of traces, each a
    list of samples.  Array arithmetic is written once, over the
    interface [Arith], and read three times: at [R] (exact arithmetic,
    where the theorems about values are proved), at IEEE binary64
    (where overflow can be observed on a given input), and at the reals
    extended by the IEEE special values, with overflow beyond the
    largest double and no rounding below it (where the absence of NaN
    and of infinities is proved).

    Limits of the model.  The metadata dictionary of [load_segy_cube]
    and the [verbose] printing are left out.  A nested list does not
    record the extent of the axes below an empty one.  The library
    calls ([segyio], [np.pad], [uniform_filter]) are modelled by what
    they return.  [Np.uniform_filter1d] sums every window afresh, where
    scipy carries a running sum along the line: the two agree in exact
    arithmetic and as long as nothing overflows, and may differ on
    binary64 by rounding, and grossly once an infinity or a NaN has
    entered the line.  The binary64 reading is used for one input only,
    on which every window holds an overflowed square. *)

From Stdlib Require Import ZArith List String Ascii Bool Lia.
From Stdlib Require Import DecimalString DecimalZ DecimalPos DecimalN.
From Stdlib Require Import Reals Lra.
From Stdlib Require Floats.
Import ListNotations.

Set Implicit Arguments.

(** ** Exceptions and results *)

Inductive exn : Type :=
| ValueError
| IndexError
| MemoryError.

Inductive result (A : Type) : Type :=
| Ok (a : A)
| Raise (e : exn).

Arguments Ok {A} a.
Arguments Raise {A} e.

Definition bind {A B : Type} (r : result A) (k : A -> result B) : result B :=
  match r with
  | Ok a => k a
  | Raise e => Raise e
  end.

Declare Scope result_scope.
Delimit Scope result_scope with result.
Notation "x <- r ;; k" := (bind r (fun x => k))
  (at level 61, r at next level, right associativity) : result_scope.
Open Scope result_scope.

Fixpoint mapM {A B : Type} (f : A -> result B) (l : list A) : result (list B) :=
  match l with
  | [] => Ok []
  | x :: r => y <- f x ;; ys <- mapM f r ;; Ok (y :: ys)
  end.

(** ** The Python runtime the script relies on *)

Module Py.

(** [s.split(sep)] for a one-character separator: every occurrence
    cuts, so the result has one more piece than there are separators. *)
Fixpoint split (sep : ascii) (s : string) : list string :=
  match s with
  | EmptyString => [EmptyString]
  | String c r =>
      if Ascii.eqb c sep then EmptyString :: split sep r
      else match split sep r with
           | [] => [String c EmptyString]
           | p :: ps => String c p :: ps
           end
  end.

(** [sep in s] *)
Fixpoint contains (sep : ascii) (s : string) : bool :=
  match s with
  | EmptyString => false
  | String c r => Ascii.eqb c sep || contains sep r
  end.

(** ASCII white space as [int()] skips it: TAB..CR and SPACE.  The
    separators FS..US are not skipped: [int('3\x1c')] raises. *)
Definition is_space (c : ascii) : bool :=
  let n := nat_of_ascii c in
  ((9 <=? n) && (n <=? 13) || (n =? 32))%nat.

Fixpoint lstrip (s : string) : string :=
  match s with
  | EmptyString => EmptyString
  | String c r => if is_space c then lstrip r else s
  end.

Fixpoint rstrip (s : string) : string :=
  match s with
  | EmptyString => EmptyString
  | String c r =>
      match rstrip r with
      | EmptyString => if is_space c then EmptyString else String c EmptyString
      | r' => String c r'
      end
  end.

Definition strip (s : string) : string := rstrip (lstrip s).

Definition digit (c : ascii) : option Z :=
  let n := nat_of_ascii c in
  if ((48 <=? n) && (n <=? 57))%nat then Some (Z.of_nat n - 48)%Z else None.

(** The digits after the first one; a single underscore may stand
    between two digits (PEP 515). *)
Fixpoint int_digits (acc : Z) (s : string) : option Z :=
  match s with
  | EmptyString => Some acc
  | String c r =>
      if Ascii.eqb c "_"%char then
        match r with
        | EmptyString => None
        | String d r' =>
            match digit d with
            | Some v => int_digits (10 * acc + v) r'
            | None => None
            end
        end
      else
        match digit c with
        | Some v => int_digits (10 * acc + v) r
        | None => None
        end
  end.

Definition int_body (s : string) : option Z :=
  match s with
  | EmptyString => None
  | String c r =>
      match digit c with
      | Some v => int_digits v r
      | None => None
      end
  end.

(** [int(s)] in base ten: surrounding white space, an optional sign,
    then the digits.  [None] is Python's [ValueError]. *)
Definition int (s : string) : option Z :=
  match strip s with
  | String "+"%char r => int_body r
  | String "-"%char r => option_map Z.opp (int_body r)
  | t => int_body t
  end.

(** [str(n)] for an integer. *)
Definition str (n : Z) : string := NilZero.string_of_int (Z.to_int n).

(** [x % 2], with the sign of the divisor. *)
Definition mod2 (x : Z) : Z := Z.modulo x 2.

(** The bounds of [l[start:stop]] on a sequence of length [n]: a
    negative index counts from the end, and both are clipped. *)
Definition slice_bound (n i : Z) : Z :=
  if (i <? 0)%Z then Z.max (i + n) 0 else Z.min i n.

Definition slice {A : Type} (l : list A) (start stop : Z) : list A :=
  let n := Z.of_nat (List.length l) in
  let a := slice_bound n start in
  let b := slice_bound n stop in
  firstn (Z.to_nat (b - a)) (skipn (Z.to_nat a) l).

(** [l[i]]: a negative index counts from the end; outside the
    sequence the access raises [IndexError]. *)
Definition index {A : Type} (l : list A) (i : Z) : result A :=
  let n := Z.of_nat (List.length l) in
  let j := if (i <? 0)%Z then (i + n)%Z else i in
  if ((0 <=? j) && (j <? n))%Z then
    match nth_error l (Z.to_nat j) with
    | Some x => Ok x
    | None => Raise IndexError
    end
  else Raise IndexError.

(** [range(a, b)] *)
Definition range (a b : Z) : list Z :=
  map (fun k => (a + Z.of_nat k)%Z) (seq 0 (Z.to_nat (b - a))).

End Py.

(** ** Configuration strings *)

Definition of_int (o : option Z) : result Z :=
  match o with
  | Some z => Ok z
  | None => Raise ValueError
  end.

(** [map(int, s.split(sep))], consumed in full. *)
Definition int_fields (sep : ascii) (s : string) : result (list Z) :=
  mapM (fun p => of_int (Py.int p)) (Py.split sep s).

(** [parse_range]: ['start:end'] to a pair. *)
Definition parse_range (range_str : string) : result (Z * Z) :=
  if negb (Py.contains ":"%char range_str) then Raise ValueError
  else
    parts <- int_fields ":"%char range_str ;;
    match parts with
    | [start; end_] =>
        if (start >=? end_)%Z then Raise ValueError
        else Ok (start, end_)
    | _ => Raise ValueError
    end.

(** Line 47-49: an even size becomes the next odd one. *)
Definition make_odd (p : Z) : Z :=
  if (Py.mod2 p =? 1)%Z then p else (p + 1)%Z.

(** [parse_patch]: ['py,px,pz'] to a triple.  Whatever is raised inside
    the [try] block is raised again as [ValueError]. *)
Definition parse_patch (patch_str : string) : result (Z * Z * Z) :=
  match int_fields ","%char patch_str with
  | Ok [py; px; pz] =>
      let py := make_odd py in
      let px := make_odd px in
      let pz := make_odd pz in
      if existsb (fun p => (p <? 3)%Z) [py; px; pz] then Raise ValueError
      else Ok (py, px, pz)
  | _ => Raise ValueError
  end.

(** ** Volumes and the trace source *)

(** A 3-D array, axis 0 outermost. *)
Definition volume (A : Type) : Type := list (list (list A)).

(** [v.shape == (n0, n1, n2)] *)
Definition has_shape {A : Type} (v : volume A) (n0 n1 n2 : nat) : Prop :=
  List.length v = n0 /\
  Forall (fun plane =>
            List.length plane = n1 /\
            Forall (fun tr => List.length tr = n2) plane) v.

(** What the script reads of an open [segyio] file [f]: the lengths of
    [f.ilines], [f.xlines] and [f.samples], the traces [f.trace] in file
    order, and the outcome of the bulk read [segyio.tools.cube(f)],
    which is the dense array or an exception. *)
Record SegyFile (T : Type) : Type := {
  n_ilines : nat;
  n_xlines : nat;
  n_samples : nat;
  trace : list (list T);
  cube : result (volume T)
}.

(** The dense array of an inline-sorted file: row [i] holds the traces
    [i * n_xlines .. i * n_xlines + n_xlines - 1]. *)
Definition cube_of_traces {T : Type} (n_il n_xl : nat) (traces : list (list T))
  : volume T :=
  map (fun i => firstn n_xl (skipn (i * n_xl) traces)) (seq 0 n_il).

Section Loader.

Variables T F : Type.

(** [astype(np.float32)], and the cast of an assignment into a
    [float32] array. *)
Variable as_float32 : T -> F.

(** An optional range, with its default. *)
Definition range_start (r : option (Z * Z)) : Z :=
  match r with Some (a, _) => a | None => 0%Z end.

Definition range_end (r : option (Z * Z)) (n : nat) : Z :=
  match r with Some (_, b) => b | None => Z.of_nat n end.

(** Lines 101-102: [cube[il_start:il_end, xl_start:xl_end,
    z_start:z_end].astype(np.float32)]. *)
Definition crop (c : volume T) (il_start il_end xl_start xl_end z_start z_end : Z)
  : volume F :=
  map (fun plane =>
         map (fun tr => map as_float32 (Py.slice tr z_start z_end))
             (Py.slice plane xl_start xl_end))
      (Py.slice c il_start il_end).

(** Line 112, [data[i, j, :] = rhs] on a row of [width] samples: the
    right-hand side has that length, or has one sample that is
    repeated, or the assignment raises. *)
Definition assign_row (width : Z) (rhs : list T) : result (list F) :=
  if (Z.of_nat (List.length rhs) =? width)%Z then Ok (map as_float32 rhs)
  else
    match rhs with
    | [x] => Ok (repeat (as_float32 x) (Z.to_nat width))
    | _ => Raise ValueError
    end.

(** Lines 107-112: the trace-by-trace path. *)
Definition read_traces (f : SegyFile T)
           (il_start il_end xl_start xl_end z_start z_end : Z)
  : result (volume F) :=
  if ((il_end - il_start <? 0) || (xl_end - xl_start <? 0)
      || (z_end - z_start <? 0))%Z
  then Raise ValueError
  else
    mapM (fun il =>
            mapM (fun xl =>
                    let trace_idx := (il * Z.of_nat (n_xlines f) + xl)%Z in
                    bind (Py.index (trace f) trace_idx)
                      (fun tr =>
                         assign_row (z_end - z_start)
                                    (Py.slice tr z_start z_end)))
                 (Py.range xl_start xl_end))
         (Py.range il_start il_end).

(** [np.transpose(data, perm)]: sample [(i0, i1, i2)] of the result is
    the sample of [data] whose index along axis [perm[k]] is [ik]. *)
Definition get3 (v : volume F) (j0 j1 j2 : nat) : list F :=
  match nth_error v j0 with
  | Some plane =>
      match nth_error plane j1 with
      | Some tr =>
          match nth_error tr j2 with Some x => [x] | None => [] end
      | None => []
      end
  | None => []
  end.

Definition shape3 (v : volume F) : list nat :=
  [List.length v; List.length (hd [] v); List.length (hd [] (hd [] v))].

Definition place (perm : list Z) (i0 i1 i2 : nat) (axis : Z) : nat :=
  match perm with
  | [p0; p1; p2] =>
      if (p0 =? axis)%Z then i0 else if (p1 =? axis)%Z then i1 else i2
  | _ => 0
  end.

Definition transpose (v : volume F) (perm : list Z) : volume F :=
  let dim k := nth (Z.to_nat (nth k perm 0%Z)) (shape3 v) 0 in
  map (fun i0 =>
         map (fun i1 =>
                flat_map (fun i2 =>
                            get3 v (place perm i0 i1 i2 0)
                                   (place perm i0 i1 i2 1)
                                   (place perm i0 i1 i2 2))
                         (seq 0 (dim 2)))
             (seq 0 (dim 1)))
      (seq 0 (dim 0)).

(** Line 127: [len(perm) != 3 or set(perm) != {0, 1, 2}]. *)
Definition is_permutation (perm : list Z) : bool :=
  (List.length perm =? 3)%nat
  && forallb (fun k => existsb (Z.eqb k) perm) [0; 1; 2]%Z
  && forallb (fun p => existsb (Z.eqb p) [0; 1; 2]%Z) perm.

(** [load_segy_cube], the returned array.  The metadata dictionary
    (built from the same bounds) is not part of the model. *)
Definition load_segy_cube (f : SegyFile T)
           (iline_range xline_range z_range : option (Z * Z))
           (swap_axes : option string) : result (volume F) :=
  let il_start := range_start iline_range in
  let il_end := range_end iline_range (n_ilines f) in
  let xl_start := range_start xline_range in
  let xl_end := range_end xline_range (n_xlines f) in
  let z_start := range_start z_range in
  let z_end := range_end z_range (n_samples f) in
  if ((il_end >? Z.of_nat (n_ilines f)) || (xl_end >? Z.of_nat (n_xlines f))
      || (z_end >? Z.of_nat (n_samples f)))%Z
  then Raise ValueError
  else
    data <- match cube f with
            | Ok c => Ok (crop c il_start il_end xl_start xl_end z_start z_end)
            | Raise MemoryError =>
                read_traces f il_start il_end xl_start xl_end z_start z_end
            | Raise e => Raise e
            end ;;
    match swap_axes with
    | None | Some EmptyString => Ok data
    | Some s =>
        perm <- int_fields ","%char s ;;
        if is_permutation perm then Ok (transpose data perm)
        else Raise ValueError
    end.

End Loader.

(** ** Array arithmetic *)

(** The operations the script applies to samples.  [f_of_Z] is the
    conversion of a Python integer that meets a float. *)
Class Arith (F : Type) : Type := {
  f_add : F -> F -> F;
  f_sub : F -> F -> F;
  f_mul : F -> F -> F;
  f_div : F -> F -> F;
  f_sqrt : F -> F;
  f_maximum : F -> F -> F;
  f_of_Z : Z -> F
}.

(** [1e-6], the default of [eps] in [normalize_volume]. *)
Definition default_eps {F : Type} `{Arith F} : F :=
  f_div (f_of_Z 1) (f_of_Z 1000000).

(** What a box filter needs of the things it averages: samples, and
    rows or planes of them when the filter runs along an outer axis. *)
Class Vec (X : Type) : Type := {
  v_add : X -> X -> X;
  v_div : X -> Z -> X
}.

Definition map2 {A B C : Type} (f : A -> B -> C) (l1 : list A) (l2 : list B)
  : list C :=
  map (fun ab => f (fst ab) (snd ab)) (combine l1 l2).

#[export] Instance Vec_sample {F : Type} `{Arith F} : Vec F := {
  v_add := f_add;
  v_div x n := f_div x (f_of_Z n)
}.

#[export] Instance Vec_list {X : Type} `{Vec X} : Vec (list X) := {
  v_add := map2 v_add;
  v_div l n := map (fun x => v_div x n) l
}.

Module Np.

Section Filter.

Context {X : Type} `{Vec X}.

(** The sum of a window, accumulated from its first entry on. *)
Definition vsum (d : X) (w : list X) : X :=
  match w with
  | [] => d
  | x :: r => fold_left v_add r x
  end.

(** [mode='nearest']: an index outside the line reads the nearest
    end of it. *)
Definition clamp (n : nat) (i : Z) : nat :=
  Z.to_nat (Z.max 0 (Z.min i (Z.of_nat n - 1))).

(** The [size] entries a filter of that size reads for output [i]:
    offsets [-(size // 2) .. size - size // 2 - 1]. *)
Definition window (d : X) (size : Z) (line : list X) (i : nat) : list X :=
  map (fun k =>
         nth (clamp (List.length line)
                    (Z.of_nat i + Z.of_nat k - size / 2)) line d)
      (seq 0 (Z.to_nat size)).

(** [scipy.ndimage.uniform_filter1d(line, size, mode='nearest')]:
    the mean of each window. *)
Definition uniform_filter1d (size : Z) (line : list X) : list X :=
  match line with
  | [] => []
  | d :: _ =>
      map (fun i => v_div (vsum d (window d size line i)) size)
          (seq 0 (List.length line))
  end.

End Filter.

Section Arrays.

Context {F : Type} `{Arith F}.

(** [scipy.ndimage.uniform_filter(data, size=(s0, s1, s2),
    mode='nearest')]: one pass per axis, in axis order; an axis
    whose size is not above one is left alone. *)
Definition uniform_filter (data : volume F) (s0 s1 s2 : Z) : volume F :=
  let a0 := if (1 <? s0)%Z then uniform_filter1d s0 data else data in
  let a1 := if (1 <? s1)%Z then map (uniform_filter1d s1) a0 else a0 in
  if (1 <? s2)%Z then map (map (uniform_filter1d s2)) a1 else a1.

(** [mode='reflect']: the line mirrored about its end samples, the
    end sample not repeated; a line of one sample is repeated. *)
Definition reflect_index (n : nat) (p : Z) : nat :=
  if (n <=? 1)%nat then 0
  else
    let period := (2 * (Z.of_nat n - 1))%Z in
    let m := (p mod period)%Z in
    Z.to_nat (if (m <? Z.of_nat n)%Z then m else period - m)%Z.

(** [np.pad(line, (pad, pad), mode='reflect')] along the last axis. *)
Definition pad_reflect (pad : Z) (line : list F) : result (list F) :=
  if (pad <? 0)%Z then Raise ValueError
  else
    match line with
    | [] => if (pad =? 0)%Z then Ok [] else Raise ValueError
    | d :: _ =>
        let n := List.length line in
        Ok (map (fun k => nth (reflect_index n (Z.of_nat k - pad)) line d)
                (seq 0 (n + 2 * Z.to_nat pad)))
    end.

(** An elementwise operation along the last axis, with numpy's
    broadcasting: equal lengths, or one side of length one. *)
Definition broadcast2 (f : F -> F -> F) (l1 l2 : list F) : result (list F) :=
  if (List.length l1 =? List.length l2)%nat then Ok (map2 f l1 l2)
  else
    match l1, l2 with
    | [x], _ => Ok (map (f x) l2)
    | _, [y] => Ok (map (fun a => f a y) l1)
    | _, _ => Raise ValueError
    end.

Definition square (x : F) : F := f_mul x x.

(** [np.mean] and [np.std] of a trace. *)
Definition mean (tr : list F) : F :=
  f_div (fold_left f_add tr (f_of_Z 0)) (f_of_Z (Z.of_nat (List.length tr))).

Definition std (tr : list F) : F :=
  let m := mean tr in
  f_sqrt (mean (map (fun x => square (f_sub x m)) tr)).

End Arrays.

End Np.

(** ** Normalisation *)

Section Normalize.

Context {F : Type} `{Arith F}.

(** Lines 165-168: one trace, z-scored. *)
Definition normalize_trace (eps : F) (tr : list F) : list F :=
  let mean := Np.mean tr in
  let std := f_add (Np.std tr) eps in
  map (fun x => f_div (f_sub x mean) std) tr.

(** Lines 186-197 along one trace: the local mean, and the divisor
    [sqrt(max(E[x^2] - E[x]^2, 0)) + eps]. *)
Definition local_mean (z_window pad_z : Z) (padded : list F) : list F :=
  Py.slice (if (1 <? z_window)%Z then Np.uniform_filter1d z_window padded
            else padded)
           pad_z (- pad_z).

Definition local_var (z_window pad_z : Z) (padded : list F) : list F :=
  map2 f_sub (local_mean z_window pad_z (map Np.square padded))
             (map Np.square (local_mean z_window pad_z padded)).

Definition local_std (z_window pad_z : Z) (eps : F) (padded : list F) : list F :=
  map (fun v => f_add (f_sqrt (f_maximum v (f_of_Z 0))) eps)
      (local_var z_window pad_z padded).

(** Lines 182-199 along one trace; [z_window] is already odd. *)
Definition normalize_z_trace (z_window : Z) (eps : F) (tr : list F)
  : result (list F) :=
  let pad_z := (z_window / 2)%Z in
  padded <- Np.pad_reflect pad_z tr ;;
  centred <- Np.broadcast2 f_sub tr (local_mean z_window pad_z padded) ;;
  Np.broadcast2 f_div centred (local_std z_window pad_z eps padded).

Definition mode_in (mode : string) (modes : list string) : bool :=
  existsb (String.eqb mode) modes.

(** [normalize_volume] *)
Definition normalize_volume (data : volume F) (mode : string)
           (z_window : Z) (eps : F) : result (volume F) :=
  if String.eqb mode "none" then Ok data
  else
    let result :=
      if mode_in mode ["trace"; "both"]%string
      then map (map (normalize_trace eps)) data
      else data in
    if mode_in mode ["z"; "both"]%string then
      let z_window :=
        if (z_window mod 2 =? 0)%Z then (z_window + 1)%Z else z_window in
      if (z_window / 2 <? 0)%Z then Raise ValueError
      else mapM (mapM (normalize_z_trace z_window eps)) result
    else Ok result.

End Normalize.

(** ** Coherence *)

Section Coherence.

Context {F : Type} `{Arith F}.

(** [eps = 1e-6] *)
Definition coherence_eps : F := f_div (f_of_Z 1) (f_of_Z 1000000).

(** Modelled from the spec: the text of [coherence_3d] stops inside its
    last statement, after [coherence = (sum_vals ** 2) / (n_samples];
    the rest of the divisor, anything that follows it and the [return]
    are missing.  The value of a sample is the one of section 4.3,
    "S1 = sum of amplitude values in the window, S2 = sum of squared
    amplitude values in the window, N = py*px*pz,
    Coherence = S1^2 / (N*S2 + eps)".  Lines 219-220 leave the window
    means in [sum_vals] and [sum_sq_vals] ("window-averaged via a
    separable box filter"), so the sums are [n_samples] times them. *)
Definition semblance (n_samples : Z) (eps : F) (sum_val sum_sq_val : F) : F :=
  let S1 := f_mul (f_of_Z n_samples) sum_val in
  let S2 := f_mul (f_of_Z n_samples) sum_sq_val in
  f_div (Np.square S1) (f_add (f_mul (f_of_Z n_samples) S2) eps).

(** [coherence_3d] *)
Definition coherence_3d (data : volume F) (patch_size : Z * Z * Z) : volume F :=
  let '(py, px, pz) := patch_size in
  let sum_vals := Np.uniform_filter data py px pz in
  let sum_sq_vals :=
    Np.uniform_filter (map (map (map Np.square)) data) py px pz in
  let n_samples := (py * px * pz)%Z in
  map2 (map2 (map2 (semblance n_samples coherence_eps))) sum_vals sum_sq_vals.

End Coherence.

(** ** The three readings of array arithmetic *)

(** Exact arithmetic over the reals. *)
#[export] Instance Arith_R : Arith R := {
  f_add := Rplus;
  f_sub := Rminus;
  f_mul := Rmult;
  f_div := Rdiv;
  f_sqrt := R_sqrt.sqrt;
  f_maximum := Rmax;
  f_of_Z := IZR
}.

(** IEEE 754 binary64, numpy's [float64]. *)
Module Float64.

Import Floats.

(** [np.maximum]: a NaN operand is returned. *)
Definition maximum (x y : float) : float :=
  if PrimFloat.is_nan x then x
  else if PrimFloat.is_nan y then y
  else if PrimFloat.ltb x y then y else x.

(** The nearest double of an integer. *)
Definition of_Z (z : Z) : float :=
  SF2Prim (binary_normalize prec emax z 0 false).

Definition is_finite (x : float) : bool :=
  negb (PrimFloat.is_nan x) && negb (PrimFloat.is_infinity x).

End Float64.

Definition volume_finite (v : volume PrimFloat.float) : bool :=
  forallb (forallb (forallb Float64.is_finite)) v.

#[export] Instance Arith_float64 : Arith PrimFloat.float := {
  f_add := PrimFloat.add;
  f_sub := PrimFloat.sub;
  f_mul := PrimFloat.mul;
  f_div := PrimFloat.div;
  f_sqrt := PrimFloat.sqrt;
  f_maximum := Float64.maximum;
  f_of_Z := Float64.of_Z
}.

(** The reals with the special values of IEEE 754: a finite value is a
    real of magnitude at most [omega], the largest double; a result
    beyond it overflows to an infinity; an undefined result is NaN.
    Rounding below [omega] and the sign of zero are left out. *)
Module Xreal.

Inductive xreal : Type :=
| XFin (r : R)
| XInf (negative : bool)
| XNaN.

(** [(2 - 2^-52) * 2^1023] *)
Definition omega : R := IZR (2 ^ 1024 - 2 ^ 971).

Definition is_zero (r : R) : bool := if Req_dec_T r 0 then true else false.

Definition is_negative (r : R) : bool := if Rlt_dec r 0 then true else false.

Definition round (r : R) : xreal :=
  if Rle_dec (Rabs r) omega then XFin r else XInf (is_negative r).

Definition opp (x : xreal) : xreal :=
  match x with
  | XFin a => XFin (- a)
  | XInf s => XInf (negb s)
  | XNaN => XNaN
  end.

Definition add (x y : xreal) : xreal :=
  match x, y with
  | XNaN, _ | _, XNaN => XNaN
  | XInf s, XInf t => if Bool.eqb s t then XInf s else XNaN
  | XInf s, XFin _ => XInf s
  | XFin _, XInf t => XInf t
  | XFin a, XFin b => round (a + b)
  end.

Definition sub (x y : xreal) : xreal := add x (opp y).

Definition mul (x y : xreal) : xreal :=
  match x, y with
  | XNaN, _ | _, XNaN => XNaN
  | XInf s, XInf t => XInf (xorb s t)
  | XInf s, XFin b => if is_zero b then XNaN else XInf (xorb s (is_negative b))
  | XFin a, XInf t => if is_zero a then XNaN else XInf (xorb (is_negative a) t)
  | XFin a, XFin b => round (a * b)
  end.

Definition div (x y : xreal) : xreal :=
  match x, y with
  | XNaN, _ | _, XNaN => XNaN
  | XInf _, XInf _ => XNaN
  | XInf s, XFin b => XInf (xorb s (is_negative b))
  | XFin _, XInf _ => XFin 0
  | XFin a, XFin b =>
      if is_zero b then (if is_zero a then XNaN else XInf (is_negative a))
      else round (a / b)
  end.

Definition sqrt (x : xreal) : xreal :=
  match x with
  | XNaN => XNaN
  | XInf s => if s then XNaN else XInf false
  | XFin a => if is_negative a then XNaN else XFin (R_sqrt.sqrt a)
  end.

(** [np.maximum]: a NaN operand is returned. *)
Definition maximum (x y : xreal) : xreal :=
  match x, y with
  | XNaN, _ | _, XNaN => XNaN
  | XInf s, XInf t => XInf (s && t)
  | XInf s, XFin b => if s then XFin b else XInf false
  | XFin a, XInf t => if t then XFin a else XInf false
  | XFin a, XFin b => XFin (Rmax a b)
  end.

Definition of_Z (z : Z) : xreal := round (IZR z).

End Xreal.


(** * The vocabulary of the properties *)

(** ** Files and ranges *)

(** The geometry the script assumes of a file: one trace per
    (inline, crossline) pair, inline-major, each of [n_samples] samples. *)
Definition traces_ok {T : Type} (f : SegyFile T) : Prop :=
  List.length (trace f) = (n_ilines f * n_xlines f)%nat /\
  Forall (fun tr => List.length tr = n_samples f) (trace f).

(** The file with the bulk read replaced by its outcome [c]. *)
Definition with_cube {T : Type} (f : SegyFile T) (c : result (volume T))
  : SegyFile T :=
  {| n_ilines := n_ilines f; n_xlines := n_xlines f; n_samples := n_samples f;
     trace := trace f; cube := c |}.

(** A file whose bulk read, when memory allows it, is the dense array of
    its traces. *)
Definition file_ok {T : Type} (f : SegyFile T) : Prop :=
  traces_ok f /\
  (cube f = Ok (cube_of_traces (n_ilines f) (n_xlines f) (trace f)) \/
   cube f = Raise MemoryError).

(** A requested range lies inside an axis of [n] entries. *)
Definition valid_range (r : option (Z * Z)) (n : nat) : Prop :=
  match r with
  | Some (a, b) => (0 <= a < b)%Z /\ (b <= Z.of_nat n)%Z
  | None => True
  end.

Section Grid.

Variables T F : Type.
Variable as_float32 : T -> F.

(** The cropped array, read off the trace list. *)
Definition grid (f : SegyFile T) (a0 b0 a1 b1 a2 b2 : Z) : volume F :=
  map (fun il =>
         map (fun xl =>
                map as_float32
                    (Py.slice (nth (Z.to_nat (il * Z.of_nat (n_xlines f) + xl))
                                   (trace f) [])
                              a2 b2))
             (Py.range a1 b1))
      (Py.range a0 b0).

End Grid.

(** A file of two inlines, two crosslines and three samples. *)
Definition small_file (c : result (volume Z)) : SegyFile Z :=
  {| n_ilines := 2; n_xlines := 2; n_samples := 3;
     trace := [[1; 2; 3]; [4; 5; 6]; [7; 8; 9]; [10; 11; 12]]%Z;
     cube := c |}.

(** ** Readings of the claims that fail *)

(** The reading of C4 as it is worded: a component below 3 in the
    string is enough for a rejection. *)
Definition below_three_rejected : Prop :=
  forall s py px pz,
    int_fields ","%char s = Ok [py; px; pz] ->
    (py < 3 \/ px < 3 \/ pz < 3)%Z ->
    parse_patch s = Raise ValueError.

(** The reading of C3 as it is worded: a mode outside the enumeration
    of the spec makes the call fail. *)
Definition unknown_mode_rejected : Prop :=
  forall (data : volume R) (mode : string) (z_window : Z) (eps : R),
    ~ In mode ["none"; "trace"; "z-window"; "both"]%string ->
    exists e, normalize_volume data mode z_window eps = Raise e.



(** ** Digits *)

(** The value of a digit string read from the left, as [int_digits]
    accumulates it. *)
Fixpoint acc_uint (d : Decimal.uint) (acc : Z) : Z :=
  match d with
  | Decimal.Nil => acc
  | Decimal.D0 l => acc_uint l (10 * acc + 0)
  | Decimal.D1 l => acc_uint l (10 * acc + 1)
  | Decimal.D2 l => acc_uint l (10 * acc + 2)
  | Decimal.D3 l => acc_uint l (10 * acc + 3)
  | Decimal.D4 l => acc_uint l (10 * acc + 4)
  | Decimal.D5 l => acc_uint l (10 * acc + 5)
  | Decimal.D6 l => acc_uint l (10 * acc + 6)
  | Decimal.D7 l => acc_uint l (10 * acc + 7)
  | Decimal.D8 l => acc_uint l (10 * acc + 8)
  | Decimal.D9 l => acc_uint l (10 * acc + 9)
  end%Z.

(** ** Windows and their means *)

(** The list [f 0; ...; f (n - 1)]. *)
Definition tab {A : Type} (n : nat) (f : nat -> A) : list A := map f (seq 0 n).

Section WindowMean.

Context {X : Type} `{Vec X}.

(** A value is kept by the filter when the mean of [size] copies of it
    is the value itself. *)
Definition mean_stable (size : Z) (x : X) : Prop :=
  v_div (fold_left v_add (repeat x (Z.to_nat size - 1)) x) size = x.

(** The mean of the window of [f] that output [i] reads. *)
Definition wmean (size : Z) (n : nat) (f : nat -> X) (i : nat) : X :=
  v_div (Np.vsum (f 0%nat)
                 (map (fun k => f (Np.clamp n (Z.of_nat i + Z.of_nat k - size / 2)))
                      (seq 0 (Z.to_nat size))))
        size.

End WindowMean.

Section RealVocabulary.

Open Scope R_scope.






(** A volume all of whose samples are [c]. *)
Definition const_volume (n0 n1 n2 : nat) (c : R) : volume R :=
  repeat (repeat (repeat c n2) n1) n0.

(** Sample [(i, j, k)] of a volume. *)
Definition sample_at (data : volume R) (i j k : nat) : R :=
  nth k (nth j (nth i data []) []) 0.

(** The sum of a list. *)
Definition Rsum (l : list R) : R := fold_right Rplus 0 l.



(** The window mean of samples. *)
Definition smooth (size : Z) (n : nat) (h : nat -> R) (i : nat) : R :=
  Rsum (map (fun d => h (Np.clamp n (Z.of_nat i + Z.of_nat d - size / 2)))
            (seq 0 (Z.to_nat size)))
  / IZR size.

(** The volume with sample [f i j k] at [(i, j, k)]. *)
Definition tab3 (n0 n1 n2 : nat) (f : nat -> nat -> nat -> R) : volume R :=
  tab n0 (fun i => tab n1 (fun j => tab n2 (f i j))).


End RealVocabulary.

(** ** Samples by position *)

(** [v[i, j, k]], when the position exists. *)
Definition sample_of {A : Type} (v : volume A) (i j k : nat) : option A :=
  match nth_error v i with
  | Some plane =>
      match nth_error plane j with
      | Some tr => nth_error tr k
      | None => None
      end
  | None => None
  end.

(** Sample [z] of the trace at inline [il], crossline [xl] of a file. *)
Definition trace_sample {T : Type} (f : SegyFile T) (il xl z : Z) : option T :=
  match nth_error (trace f) (Z.to_nat (il * Z.of_nat (n_xlines f) + xl)) with
  | Some tr => nth_error tr (Z.to_nat z)
  | None => None
  end.

(** The extent of axis [k] of a transposed array whose source has the
    extents [dims]. *)
Definition permuted_dim (dims : list nat) (perm : list Z) (k : nat) : nat :=
  nth (Z.to_nat (nth k perm 0%Z)) dims 0%nat.

(** * Lemmas and theorems *)

(** ** [int] reads back what [str] prints *)

Lemma int_digits_uint (d : Decimal.uint) :
  forall acc, Py.int_digits acc (NilEmpty.string_of_uint d) = Some (acc_uint d acc).
Proof.
  induction d; intros acc; simpl; auto.
Qed.

Lemma acc_uint_pos (d : Decimal.uint) :
  forall acc, acc_uint d (Zpos acc) = Zpos (Pos.of_uint_acc d acc).
Proof.
  induction d; intros acc; cbn [acc_uint Pos.of_uint_acc]; auto;
    rewrite <- IHd; f_equal; lia.
Qed.

Lemma acc_uint_zero (d : Decimal.uint) :
  acc_uint d 0 = Z.of_N (Pos.of_uint d).
Proof.
  induction d; simpl; auto;
    match goal with
    | |- acc_uint ?l (Zpos ?p) = _ => rewrite (acc_uint_pos l p); reflexivity
    end.
Qed.

Lemma int_body_uint (d : Decimal.uint) :
  d <> Decimal.Nil ->
  Py.int_body (NilEmpty.string_of_uint d) = Some (Z.of_N (Pos.of_uint d)).
Proof.
  intros Hd. rewrite <- acc_uint_zero.
  destruct d; try congruence; simpl; apply int_digits_uint.
Qed.

Lemma rstrip_uint (d : Decimal.uint) :
  Py.rstrip (NilEmpty.string_of_uint d) = NilEmpty.string_of_uint d.
Proof.
  induction d; simpl; auto; rewrite IHd;
    destruct (NilEmpty.string_of_uint d); reflexivity.
Qed.

Lemma lstrip_uint (d : Decimal.uint) :
  Py.lstrip (NilEmpty.string_of_uint d) = NilEmpty.string_of_uint d.
Proof. destruct d; reflexivity. Qed.

Lemma contains_uint (sep : ascii) (d : Decimal.uint) :
  Py.digit sep = None ->
  Py.contains sep (NilEmpty.string_of_uint d) = false.
Proof.
  intros Hsep.
  induction d; cbn [Py.contains NilEmpty.string_of_uint]; auto;
    rewrite IHd, orb_false_r;
    apply Ascii.eqb_neq; intros E; subst sep; discriminate Hsep.
Qed.

Lemma to_uint_nonnil (p : positive) : Pos.to_uint p <> Decimal.Nil.
Proof.
  intros E.
  pose proof (DecimalPos.Unsigned.of_to p) as H.
  rewrite E in H. discriminate H.
Qed.

Lemma int_pos (p : positive) :
  Py.int (NilEmpty.string_of_uint (Pos.to_uint p)) = Some (Zpos p).
Proof.
  pose proof (to_uint_nonnil p) as Hn.
  pose proof (int_body_uint Hn) as Hb.
  rewrite DecimalPos.Unsigned.of_to in Hb.
  unfold Py.int, Py.strip. rewrite lstrip_uint, rstrip_uint.
  destruct (Pos.to_uint p); try congruence; exact Hb.
Qed.

Lemma str_pos (p : positive) :
  Py.str (Zpos p) = NilEmpty.string_of_uint (Pos.to_uint p).
Proof.
  unfold Py.str. simpl.
  pose proof (to_uint_nonnil p).
  destruct (Pos.to_uint p); try reflexivity; congruence.
Qed.

Lemma str_neg (p : positive) :
  Py.str (Zneg p) = String "-" (NilEmpty.string_of_uint (Pos.to_uint p)).
Proof.
  unfold Py.str. simpl.
  pose proof (to_uint_nonnil p).
  destruct (Pos.to_uint p); try reflexivity; congruence.
Qed.

(** [int(str(n)) == n] *)
Lemma int_str (n : Z) : Py.int (Py.str n) = Some n.
Proof.
  destruct n as [|p|p].
  - reflexivity.
  - rewrite str_pos. apply int_pos.
  - rewrite str_neg.
    pose proof (to_uint_nonnil p) as Hn.
    pose proof (int_body_uint Hn) as Hb.
    rewrite DecimalPos.Unsigned.of_to in Hb.
    unfold Py.int, Py.strip.
    change (Py.lstrip (String "-" ?s)) with (String "-" s).
    assert (Hr : Py.rstrip (String "-" (NilEmpty.string_of_uint (Pos.to_uint p)))
                 = String "-" (NilEmpty.string_of_uint (Pos.to_uint p))).
    { simpl. rewrite rstrip_uint.
      destruct (NilEmpty.string_of_uint (Pos.to_uint p)); reflexivity. }
    rewrite Hr. rewrite Hb. reflexivity.
Qed.

Lemma contains_str (sep : ascii) (n : Z) :
  Py.digit sep = None -> sep <> "-"%char ->
  Py.contains sep (Py.str n) = false.
Proof.
  intros Hd Hm. destruct n as [|p|p].
  - change (Py.str 0) with "0"%string. cbn [Py.contains].
    rewrite orb_false_r. apply Ascii.eqb_neq.
    intros E; subst sep; discriminate Hd.
  - rewrite str_pos. now apply contains_uint.
  - rewrite str_neg. cbn [Py.contains]. rewrite contains_uint by assumption.
    rewrite orb_false_r. apply Ascii.eqb_neq. congruence.
Qed.

(** ** [split] on strings with a known number of separators *)

Lemma split_none (sep : ascii) (s : string) :
  Py.contains sep s = false -> Py.split sep s = [s].
Proof.
  induction s as [|c r IH]; cbn [Py.contains Py.split]; intros Hc; auto.
  apply orb_false_iff in Hc. destruct Hc as [Hc Hr].
  rewrite Hc, (IH Hr). reflexivity.
Qed.

Lemma split_app (sep : ascii) (s1 s2 : string) :
  Py.contains sep s1 = false ->
  Py.split sep (s1 ++ String sep s2) = s1 :: Py.split sep s2.
Proof.
  induction s1 as [|c r IH];
    cbn [Py.contains Py.split String.append]; intros Hc.
  - now rewrite Ascii.eqb_refl.
  - apply orb_false_iff in Hc. destruct Hc as [Hc Hr].
    rewrite (IH Hr). now rewrite Hc.
Qed.

Lemma contains_app (sep : ascii) (s1 s2 : string) :
  Py.contains sep (s1 ++ String sep s2) = true.
Proof.
  induction s1 as [|c r IH]; cbn [Py.contains String.append].
  - now rewrite Ascii.eqb_refl.
  - rewrite IH. apply orb_true_r.
Qed.

(** ** Slices, ranges and [mapM] *)

Lemma mapM_ok {A B : Type} (f : A -> result B) (g : A -> B) (l : list A) :
  (forall x, In x l -> f x = Ok (g x)) -> mapM f l = Ok (map g l).
Proof.
  induction l as [|x r IH]; intros Hf; simpl; auto.
  rewrite (Hf x) by now left. simpl.
  rewrite IH by (intros y Hy; apply Hf; now right). reflexivity.
Qed.

Lemma range_In (a b k : Z) : In k (Py.range a b) <-> (a <= k < b)%Z.
Proof.
  unfold Py.range. rewrite in_map_iff. split.
  - intros [i [<- Hi]]. apply in_seq in Hi. lia.
  - intros Hk. exists (Z.to_nat (k - a)). split; [lia|].
    apply in_seq. lia.
Qed.

Lemma range_length (a b : Z) : List.length (Py.range a b) = Z.to_nat (b - a).
Proof. unfold Py.range. now rewrite length_map, length_seq. Qed.

Lemma firstn_skipn_nth {A : Type} (d : A) (l : list A) (a m : nat) :
  (a + m <= List.length l)%nat ->
  firstn m (skipn a l) = map (fun k => nth (a + k) l d) (seq 0 m).
Proof.
  intros Hl.
  apply (nth_ext _ _ d (nth (a + 0) l d)).
  - rewrite length_firstn, length_skipn, length_map, length_seq. lia.
  - intros n Hn.
    rewrite length_firstn, length_skipn in Hn.
    rewrite (map_nth (fun k => nth (a + k) l d) (seq 0 m) 0%nat n).
    rewrite seq_nth by lia.
    rewrite nth_firstn.
    replace (n <? m)%nat with true by (symmetry; apply Nat.ltb_lt; lia).
    now rewrite nth_skipn.
Qed.

Lemma slice_within {A : Type} (l : list A) (a b : Z) :
  (0 <= a <= b)%Z -> (b <= Z.of_nat (List.length l))%Z ->
  Py.slice l a b = firstn (Z.to_nat (b - a)) (skipn (Z.to_nat a) l).
Proof.
  intros Hab Hb. unfold Py.slice, Py.slice_bound.
  replace (a <? 0)%Z with false by (symmetry; apply Z.ltb_ge; lia).
  replace (b <? 0)%Z with false by (symmetry; apply Z.ltb_ge; lia).
  now rewrite !Z.min_l by lia.
Qed.

Lemma slice_length {A : Type} (l : list A) (a b : Z) :
  (0 <= a <= b)%Z -> (b <= Z.of_nat (List.length l))%Z ->
  List.length (Py.slice l a b) = Z.to_nat (b - a).
Proof.
  intros Hab Hb. rewrite slice_within by assumption.
  rewrite length_firstn, length_skipn. lia.
Qed.

Lemma slice_as_range {A : Type} (d : A) (l : list A) (a b : Z) :
  (0 <= a <= b)%Z -> (b <= Z.of_nat (List.length l))%Z ->
  Py.slice l a b = map (fun k => nth (Z.to_nat k) l d) (Py.range a b).
Proof.
  intros Hab Hb. rewrite slice_within by assumption.
  rewrite (firstn_skipn_nth d) by lia.
  unfold Py.range. rewrite map_map.
  apply map_ext_in. intros k Hk. apply in_seq in Hk.
  f_equal. lia.
Qed.

Lemma index_within {A : Type} (d : A) (l : list A) (i : Z) :
  (0 <= i < Z.of_nat (List.length l))%Z ->
  Py.index l i = Ok (nth (Z.to_nat i) l d).
Proof.
  intros Hi. unfold Py.index.
  replace (i <? 0)%Z with false by (symmetry; apply Z.ltb_ge; lia).
  replace (0 <=? i)%Z with true by (symmetry; apply Z.leb_le; lia).
  replace (i <? Z.of_nat (List.length l))%Z with true
    by (symmetry; apply Z.ltb_lt; lia).
  simpl.
  destruct (nth_error l (Z.to_nat i)) eqn:E.
  - now rewrite (nth_error_nth _ _ d E).
  - apply nth_error_None in E. lia.
Qed.

(** ** The two paths of the loader *)

Section LoaderFacts.

Variables T F : Type.
Variable as_float32 : T -> F.

Variable f : SegyFile T.
Hypothesis Hf : traces_ok f.
Variables a0 b0 a1 b1 a2 b2 : Z.
Hypothesis H0 : (0 <= a0 <= b0)%Z /\ (b0 <= Z.of_nat (n_ilines f))%Z.
Hypothesis H1 : (0 <= a1 <= b1)%Z /\ (b1 <= Z.of_nat (n_xlines f))%Z.
Hypothesis H2 : (0 <= a2 <= b2)%Z /\ (b2 <= Z.of_nat (n_samples f))%Z.

Lemma trace_index_bound (il xl : Z) :
  (a0 <= il < b0)%Z -> (a1 <= xl < b1)%Z ->
  (0 <= il * Z.of_nat (n_xlines f) + xl < Z.of_nat (List.length (trace f)))%Z.
Proof.
  intros Hil Hxl. destruct Hf as [Hlen _]. rewrite Hlen.
  rewrite Nat2Z.inj_mul. nia.
Qed.

Lemma trace_length (il xl : Z) :
  (a0 <= il < b0)%Z -> (a1 <= xl < b1)%Z ->
  List.length (nth (Z.to_nat (il * Z.of_nat (n_xlines f) + xl)) (trace f) [])
  = n_samples f.
Proof.
  intros Hil Hxl. destruct Hf as [_ Hall].
  rewrite Forall_forall in Hall. apply Hall. apply nth_In.
  pose proof (trace_index_bound Hil Hxl). lia.
Qed.

Lemma read_traces_grid :
  read_traces as_float32 f a0 b0 a1 b1 a2 b2 = Ok (grid as_float32 f a0 b0 a1 b1 a2 b2).
Proof.
  unfold read_traces.
  replace (b0 - a0 <? 0)%Z with false by (symmetry; apply Z.ltb_ge; lia).
  replace (b1 - a1 <? 0)%Z with false by (symmetry; apply Z.ltb_ge; lia).
  replace (b2 - a2 <? 0)%Z with false by (symmetry; apply Z.ltb_ge; lia).
  simpl. unfold grid.
  apply mapM_ok. intros il Hil. apply range_In in Hil.
  apply mapM_ok. intros xl Hxl. apply range_In in Hxl.
  rewrite (index_within []) by now apply trace_index_bound.
  simpl. unfold assign_row.
  rewrite slice_length; [|lia|rewrite trace_length by assumption; lia].
  replace (Z.of_nat (Z.to_nat (b2 - a2)) =? b2 - a2)%Z with true
    by (symmetry; apply Z.eqb_eq; lia).
  reflexivity.
Qed.

Lemma cube_row (il : Z) :
  (a0 <= il < b0)%Z ->
  nth (Z.to_nat il) (cube_of_traces (n_ilines f) (n_xlines f) (trace f)) []
  = firstn (n_xlines f) (skipn (Z.to_nat il * n_xlines f) (trace f)).
Proof.
  intros Hil. unfold cube_of_traces.
  set (row := fun i => firstn (n_xlines f) (skipn (i * n_xlines f) (trace f))).
  rewrite (nth_indep _ [] (row 0%nat))
    by (rewrite length_map, length_seq; lia).
  rewrite (map_nth row). rewrite seq_nth by lia. reflexivity.
Qed.

Lemma crop_grid :
  crop as_float32 (cube_of_traces (n_ilines f) (n_xlines f) (trace f))
       a0 b0 a1 b1 a2 b2
  = grid as_float32 f a0 b0 a1 b1 a2 b2.
Proof.
  unfold crop, grid.
  rewrite (slice_as_range [] (cube_of_traces _ _ _));
    [|lia|unfold cube_of_traces; rewrite length_map, length_seq; lia].
  rewrite map_map. apply map_ext_in. intros il Hil. apply range_In in Hil.
  rewrite cube_row by assumption.
  destruct Hf as [Hlen _].
  assert (Hrow : (Z.to_nat il * n_xlines f + n_xlines f
                  <= List.length (trace f))%nat) by (rewrite Hlen; nia).
  rewrite (slice_as_range []);
    [|lia|rewrite length_firstn, length_skipn; lia].
  rewrite map_map. apply map_ext_in. intros xl Hxl. apply range_In in Hxl.
  rewrite nth_firstn.
  replace (Z.to_nat xl <? n_xlines f)%nat with true
    by (symmetry; apply Nat.ltb_lt; lia).
  rewrite nth_skipn.
  do 3 f_equal. nia.
Qed.

Lemma grid_shape :
  has_shape (grid as_float32 f a0 b0 a1 b1 a2 b2)
            (Z.to_nat (b0 - a0)) (Z.to_nat (b1 - a1)) (Z.to_nat (b2 - a2)).
Proof.
  unfold has_shape, grid. split.
  - now rewrite length_map, range_length.
  - apply Forall_forall. intros plane Hp.
    apply in_map_iff in Hp. destruct Hp as [il [<- Hil]].
    apply range_In in Hil. split.
    + now rewrite length_map, range_length.
    + apply Forall_forall. intros tr Ht.
      apply in_map_iff in Ht. destruct Ht as [xl [<- Hxl]].
      apply range_In in Hxl.
      rewrite length_map, slice_length;
        [reflexivity|lia|rewrite trace_length by assumption; lia].
Qed.

End LoaderFacts.

(** ** Claims about the configuration strings *)

Lemma make_odd_small (p : Z) : (p < 2)%Z -> (make_odd p <? 3)%Z = true.
Proof.
  intros Hp. apply Z.ltb_lt. unfold make_odd, Py.mod2.
  destruct (Z.eqb_spec (p mod 2) 1); Z.div_mod_to_equations; lia.
Qed.

Lemma make_odd_large (p : Z) : (2 <= p)%Z -> (make_odd p <? 3)%Z = false.
Proof.
  intros Hp. apply Z.ltb_ge. unfold make_odd, Py.mod2.
  destruct (Z.eqb_spec (p mod 2) 1); Z.div_mod_to_equations; lia.
Qed.

Lemma make_odd_odd (p : Z) : Z.odd (make_odd p) = true.
Proof.
  unfold make_odd, Py.mod2. rewrite Zodd_mod.
  destruct (Z.eqb_spec (p mod 2) 1) as [E|E].
  - rewrite E. reflexivity.
  - apply Z.eqb_eq. Z.div_mod_to_equations; lia.
Qed.

(** C4, counterexample: the component 2 of ["2,5,7"] is below 3, yet the
    string is accepted, because sizes are rounded up to odd before they
    are compared with 3. *)
Lemma parse_patch_accepts_two :
  parse_patch "2,5,7" = Ok (3, 5, 7)%Z /\ ~ below_three_rejected.
Proof.
  split; [reflexivity|].
  intros H. specialize (H "2,5,7"%string 2 5 7 eq_refl)%Z.
  assert (E : parse_patch "2,5,7" = Raise ValueError) by (apply H; lia).
  discriminate E.
Qed.

(** C4, amended: [parse_patch] compares the sizes with 3 after rounding
    them up to odd.  A string with a component below 2 is rejected; one
    whose components are all at least 2 is accepted, and every size
    returned is odd and at least 3 (a component 2 comes back as 3). *)
Theorem parse_patch_minimum (s : string) (py px pz : Z)
  (Hs : int_fields ","%char s = Ok [py; px; pz]) :
  ((py < 2 \/ px < 2 \/ pz < 2)%Z -> parse_patch s = Raise ValueError) /\
  ((2 <= py /\ 2 <= px /\ 2 <= pz)%Z ->
   parse_patch s = Ok (make_odd py, make_odd px, make_odd pz) /\
   (3 <= make_odd py /\ 3 <= make_odd px /\ 3 <= make_odd pz)%Z /\
   Z.odd (make_odd py) && Z.odd (make_odd px) && Z.odd (make_odd pz) = true).
Proof.
  unfold parse_patch. rewrite Hs. cbn [existsb]. split.
  - intros [H | [H | H]]; rewrite (make_odd_small H), ?orb_true_r; reflexivity.
  - intros (Hy & Hx & Hz).
    pose proof (make_odd_large Hy) as Ey.
    pose proof (make_odd_large Hx) as Ex.
    pose proof (make_odd_large Hz) as Ez.
    rewrite Ey, Ex, Ez. cbn [orb].
    rewrite !make_odd_odd.
    apply Z.ltb_ge in Ey, Ex, Ez. repeat split; assumption.
Qed.

Lemma parse_patch_minimum_witness :
  parse_patch "2,4,9" = Ok (3, 5, 9)%Z /\
  parse_patch "1,4,9" = Raise ValueError.
Proof.
  split.
  - apply (parse_patch_minimum "2,4,9" (py:=2) (px:=4) (pz:=9) eq_refl).
    repeat split; discriminate.
  - apply (parse_patch_minimum "1,4,9" (py:=1) (px:=4) (pz:=9) eq_refl).
    left. reflexivity.
Defined.

(** C8: ["4,4,4"] parses to (5, 5, 5), each even size moved to the next
    odd one, and ["1,1,1"] is rejected, its sizes being below 3. *)
Theorem parse_patch_examples :
  parse_patch "4,4,4" = Ok (5, 5, 5)%Z /\
  parse_patch "1,1,1" = Raise ValueError.
Proof. split; reflexivity. Qed.

Lemma parse_range_str (a b : Z) :
  (a < b)%Z -> parse_range (Py.str a ++ ":" ++ Py.str b) = Ok (a, b).
Proof.
  intros Hab. unfold parse_range.
  change (Py.str a ++ ":" ++ Py.str b)%string
    with (Py.str a ++ String ":" (Py.str b))%string.
  rewrite contains_app. cbn [negb].
  unfold int_fields.
  rewrite split_app by (apply contains_str; [reflexivity|discriminate]).
  rewrite split_none by (apply contains_str; [reflexivity|discriminate]).
  cbn [mapM]. rewrite !int_str. cbn [of_int bind].
  rewrite Z.geb_leb.
  replace (b <=? a)%Z with false by (symmetry; apply Z.leb_gt; lia).
  reflexivity.
Qed.

(** ** Claims about the loader *)

Lemma valid_range_bounds (r : option (Z * Z)) (n : nat) :
  valid_range r n ->
  (0 <= range_start r <= range_end r n)%Z /\ (range_end r n <= Z.of_nat n)%Z.
Proof.
  destruct r as [[a b]|]; simpl; lia.
Qed.

Section LoaderClaims.

Variables T F : Type.
Variable as_float32 : T -> F.

(** With every bound inside the file, both outcomes of the bulk read
    lead to the array [grid]. *)
Lemma load_grid (f : SegyFile T) (il xl z : option (Z * Z)) :
  file_ok f ->
  valid_range il (n_ilines f) ->
  valid_range xl (n_xlines f) ->
  valid_range z (n_samples f) ->
  load_segy_cube as_float32 f il xl z None
  = Ok (grid as_float32 f
             (range_start il) (range_end il (n_ilines f))
             (range_start xl) (range_end xl (n_xlines f))
             (range_start z) (range_end z (n_samples f))).
Proof.
  intros [Ht Hc] Hil Hxl Hz.
  apply valid_range_bounds in Hil, Hxl, Hz.
  unfold load_segy_cube.
  replace (range_end il (n_ilines f) >? Z.of_nat (n_ilines f))%Z with false
    by (symmetry; rewrite Z.gtb_ltb; apply Z.ltb_ge; lia).
  replace (range_end xl (n_xlines f) >? Z.of_nat (n_xlines f))%Z with false
    by (symmetry; rewrite Z.gtb_ltb; apply Z.ltb_ge; lia).
  replace (range_end z (n_samples f) >? Z.of_nat (n_samples f))%Z with false
    by (symmetry; rewrite Z.gtb_ltb; apply Z.ltb_ge; lia).
  cbn [orb].
  destruct Hc as [Hc | Hc]; rewrite Hc.
  - rewrite crop_grid by assumption. reflexivity.
  - rewrite read_traces_grid by assumption. reflexivity.
Qed.

(** C7: over the default ranges the loaded volume has the file's own
    shape [(n_ilines, n_xlines, n_samples)], and over a range
    [start:end] inside each axis its shape is [end - start] per
    axis. *)
Theorem load_segy_cube_shape (f : SegyFile T) (Hf : file_ok f) :
  (exists v,
      load_segy_cube as_float32 f None None None None = Ok v /\
      has_shape v (n_ilines f) (n_xlines f) (n_samples f)) /\
  (forall il xl z : Z * Z,
      valid_range (Some il) (n_ilines f) ->
      valid_range (Some xl) (n_xlines f) ->
      valid_range (Some z) (n_samples f) ->
      exists v,
        load_segy_cube as_float32 f (Some il) (Some xl) (Some z) None = Ok v /\
        has_shape v (Z.to_nat (snd il - fst il)) (Z.to_nat (snd xl - fst xl))
                  (Z.to_nat (snd z - fst z))).
Proof.
  split.
  - eexists. split.
    + apply load_grid; simpl; auto.
    + pose proof (@grid_shape T F as_float32 f (proj1 Hf)
                    0 (Z.of_nat (n_ilines f)) 0 (Z.of_nat (n_xlines f))
                    0 (Z.of_nat (n_samples f))) as Hs.
      rewrite !Z.sub_0_r, !Nat2Z.id in Hs.
      apply Hs; lia.
  - intros [a0 b0] [a1 b1] [a2 b2] H0 H1 H2.
    eexists. split.
    + apply load_grid; assumption.
    + simpl in H0, H1, H2 |- *.
      apply grid_shape; [exact (proj1 Hf)|lia..].
Qed.

(** C10: for integers [a < b] the string ["a:b"] parses to [(a, b)],
    negative [a] included, and the loader looks at the ends of the
    ranges only: whatever the starts are, a request on a file whose
    bulk read succeeds is refused exactly when an end lies beyond the
    file. *)
Theorem range_start_unchecked (a b : Z) (Hab : (a < b)%Z)
  (f : SegyFile T) (c : volume T) (Hc : cube f = Ok c)
  (xl z : option (Z * Z)) :
  parse_range (Py.str a ++ ":" ++ Py.str b) = Ok (a, b) /\
  load_segy_cube as_float32 f (Some (a, b)) xl z None
  = if ((Z.of_nat (n_ilines f) <? b)
        || (Z.of_nat (n_xlines f) <? range_end xl (n_xlines f))
        || (Z.of_nat (n_samples f) <? range_end z (n_samples f)))%Z
    then Raise ValueError
    else Ok (crop as_float32 c a b
                  (range_start xl) (range_end xl (n_xlines f))
                  (range_start z) (range_end z (n_samples f))).
Proof.
  split; [now apply parse_range_str|].
  unfold load_segy_cube. rewrite Hc. cbn [range_start range_end].
  rewrite !Z.gtb_ltb.
  destruct (_ || _ || _); reflexivity.
Qed.

End LoaderClaims.

Lemma small_file_traces_ok (c : result (volume Z)) : traces_ok (small_file c).
Proof. split; [reflexivity | repeat constructor]. Defined.

Lemma load_segy_cube_shape_witness :
  exists v,
    load_segy_cube (fun x : Z => x) (small_file (Raise MemoryError))
                   None None None None = Ok v /\
    has_shape v 2 2 3.
Proof.
  apply (@load_segy_cube_shape Z Z (fun x => x) (small_file (Raise MemoryError))).
  split; [apply small_file_traces_ok | right; reflexivity].
Defined.

Lemma range_start_unchecked_witness :
  parse_range "-5:2" = Ok (-5, 2)%Z /\
  load_segy_cube (fun x : Z => x)
                 (small_file (Ok [[[1; 2; 3]; [4; 5; 6]]; [[7; 8; 9]; [10; 11; 12]]]%Z))
                 (Some (-5, 2)%Z) None None None
  = Ok [[[1; 2; 3]; [4; 5; 6]]; [[7; 8; 9]; [10; 11; 12]]]%Z.
Proof.
  apply (@range_start_unchecked Z Z (fun x => x) (-5) 2 eq_refl
           (small_file (Ok [[[1; 2; 3]; [4; 5; 6]]; [[7; 8; 9]; [10; 11; 12]]]%Z))
           _ eq_refl None None).
Defined.

(** C6, the two paths at [iline_range = (-1, 2)] on a file of two
    inlines, two crosslines and three samples: the request passes the
    check of the range ends; the bulk path returns the one plane
    [cube[-1:2]], the trace-by-trace path taken after a [MemoryError]
    returns three planes, the traces of the inlines -1, 0 and 1. *)
Theorem load_paths_disagree_at_negative_start :
  load_segy_cube (fun x : Z => x)
                 (small_file (Ok [[[1; 2; 3]; [4; 5; 6]]; [[7; 8; 9]; [10; 11; 12]]]%Z))
                 (Some (-1, 2)%Z) None None None
  = Ok [[[7; 8; 9]; [10; 11; 12]]]%Z /\
  load_segy_cube (fun x : Z => x) (small_file (Raise MemoryError))
                 (Some (-1, 2)%Z) None None None
  = Ok [[[7; 8; 9]; [10; 11; 12]];
        [[1; 2; 3]; [4; 5; 6]];
        [[7; 8; 9]; [10; 11; 12]]]%Z.
Proof. split; reflexivity. Qed.

(** ** Claims about the normalisation modes *)

Section ModeClaims.

Context {F : Type} `{Arith F}.

(** C3, amended: [normalize_volume] has no check of its mode.  The
    modes it knows are ["none"], ["trace"], ["z"] (the z-window mode)
    and ["both"]; with any other string, ["z-window"] among them, it
    raises nothing and returns the data as they came. *)
Theorem normalize_volume_unknown_mode (data : volume F) (mode : string)
  (z_window : Z) (eps : F)
  (Hmode : ~ In mode ["none"; "trace"; "z"; "both"]%string) :
  normalize_volume data mode z_window eps = Ok data.
Proof.
  assert (Hneq : forall m, In m ["none"; "trace"; "z"; "both"]%string ->
                           String.eqb mode m = false).
  { intros m Hm. apply String.eqb_neq. intros E. subst m. now apply Hmode. }
  unfold normalize_volume, mode_in. cbn [existsb].
  rewrite !Hneq by (simpl; tauto). reflexivity.
Qed.

(** C5: mode ["both"] is mode ["trace"], which never fails, followed
    by mode ["z"] on its result, with the same window and epsilon. *)
Theorem normalize_both_is_trace_then_z (data : volume F) (z_window : Z)
  (eps : F) :
  exists traced,
    normalize_volume data "trace" z_window eps = Ok traced /\
    traced = map (map (normalize_trace eps)) data /\
    normalize_volume data "both" z_window eps
    = normalize_volume traced "z" z_window eps.
Proof.
  eexists. split; [reflexivity|]. split; reflexivity.
Qed.

End ModeClaims.

(** C3, counterexample: the mode ["fast"] is in no enumeration, and the
    call returns the input volume. *)
Lemma normalize_volume_accepts_fast :
  normalize_volume [[[1; 2; 3]]]%R "fast" 9 (1 / 1000000)%R
  = Ok [[[1; 2; 3]]]%R
  /\ ~ unknown_mode_rejected.
Proof.
  split; [reflexivity|].
  intros Hrej.
  destruct (Hrej [[[1; 2; 3]]]%R "fast"%string 9%Z (1 / 1000000)%R) as [e He].
  - simpl. intros [E|[E|[E|[E|[]]]]]; discriminate E.
  - discriminate He.
Qed.

Lemma normalize_volume_unknown_mode_witness :
  normalize_volume [[[1; 2; 3]]]%R "z-window" 9 (1 / 1000000)%R
  = Ok [[[1; 2; 3]]]%R.
Proof.
  apply (@normalize_volume_unknown_mode R Arith_R
           [[[1; 2; 3]]]%R "z-window"%string 9%Z (1 / 1000000)%R).
  simpl. intros [E|[E|[E|[E|[]]]]]; discriminate E.
Defined.

(** ** The divisor of the z-window normalisation *)

Lemma map2_length {A B C : Type} (f : A -> B -> C) (l1 : list A) (l2 : list B) :
  List.length (map2 f l1 l2) = Nat.min (List.length l1) (List.length l2).
Proof. unfold map2. now rewrite length_map, length_combine. Qed.

Lemma uniform_filter1d_length {X : Type} `{Vec X} (size : Z) (line : list X) :
  List.length (Np.uniform_filter1d size line) = List.length line.
Proof.
  unfold Np.uniform_filter1d. destruct line as [|d r]; [reflexivity|].
  now rewrite length_map, length_seq.
Qed.

Lemma slice_trim {A : Type} (l : list A) (n : nat) (pad : Z) :
  (0 < pad)%Z -> List.length l = (n + 2 * Z.to_nat pad)%nat ->
  List.length (Py.slice l pad (- pad)) = n.
Proof.
  intros Hp Hl. unfold Py.slice, Py.slice_bound.
  replace (pad <? 0)%Z with false by (symmetry; apply Z.ltb_ge; lia).
  replace (- pad <? 0)%Z with true by (symmetry; apply Z.ltb_lt; lia).
  rewrite length_firstn, length_skipn. lia.
Qed.

Lemma pad_reflect_length {F : Type} `{Arith F} (pad : Z) (x : F) (r : list F) :
  (0 <= pad)%Z ->
  exists padded,
    Np.pad_reflect pad (x :: r) = Ok padded /\
    List.length padded = (List.length (x :: r) + 2 * Z.to_nat pad)%nat.
Proof.
  intros Hp. unfold Np.pad_reflect.
  replace (pad <? 0)%Z with false by (symmetry; apply Z.ltb_ge; lia).
  eexists. split; [reflexivity|].
  now rewrite length_map, length_seq.
Qed.

Lemma broadcast2_same {F : Type} `{Arith F} (f : F -> F -> F) (l1 l2 : list F) :
  List.length l1 = List.length l2 ->
  Np.broadcast2 f l1 l2 = Ok (map2 f l1 l2).
Proof.
  intros Hl. unfold Np.broadcast2. now rewrite Hl, Nat.eqb_refl.
Qed.

Lemma mapM_Forall2 {A B : Type} (f : A -> result B) (Q : A -> B -> Prop)
  (l : list A) :
  Forall (fun x => exists y, f x = Ok y /\ Q x y) l ->
  exists out, mapM f l = Ok out /\ Forall2 Q l out.
Proof.
  induction 1 as [|x r [y [Hy HQ]] _ [out [Hout HF]]].
  - exists []. split; [reflexivity | constructor].
  - exists (y :: out). simpl. rewrite Hy. simpl. rewrite Hout. simpl.
    split; [reflexivity | now constructor].
Qed.

Lemma map2_map {A B C D : Type} (h : B -> C -> D) (f : A -> B) (g : A -> C)
  (l : list A) :
  map2 h (map f l) (map g l) = map (fun x => h (f x) (g x)) l.
Proof.
  unfold map2. induction l as [|x l IH]; simpl; [reflexivity|]. now rewrite IH.
Qed.

Lemma slice_map {A B : Type} (f : A -> B) (l : list A) (a b : Z) :
  Py.slice (map f l) a b = map f (Py.slice l a b).
Proof.
  unfold Py.slice. now rewrite length_map, skipn_map, firstn_map.
Qed.

Section ZWindowReal.

Open Scope R_scope.



End ZWindowReal.

(** ** The same pass on binary64 *)


(** On samples in range the same pass stays finite on binary64: the
    trace [1, 2, 3] with window 3. *)
Lemma z_window_in_range_finite :
  exists out,
    normalize_volume
      [[[Float64.of_Z 1; Float64.of_Z 2; Float64.of_Z 3]]] "z" 3 default_eps
    = Ok out /\
    volume_finite out = true.
Proof. eexists. split; vm_compute; reflexivity. Qed.

(** ** Box filters on constant data *)

Lemma map2_repeat {A B C : Type} (f : A -> B -> C) (a : A) (b : B) (n : nat) :
  map2 f (repeat a n) (repeat b n) = repeat (f a b) n.
Proof.
  unfold map2. induction n as [|n IH]; simpl; [reflexivity|].
  now rewrite IH.
Qed.


Lemma map_seq_const {A : Type} (x : A) (f : nat -> A) (n : nat) :
  (forall i, f i = x) -> map f (seq 0 n) = repeat x n.
Proof.
  intros Hf. rewrite (map_ext f (fun _ => x) Hf).
  now rewrite map_const, length_seq.
Qed.

Section FilterConstant.

Context {X : Type} `{Vec X}.

Lemma window_constant (x : X) (size : Z) (n i : nat) :
  Np.window x size (repeat x n) i = repeat x (Z.to_nat size).
Proof.
  unfold Np.window. apply map_seq_const. intros k. apply nth_repeat.
Qed.

Lemma uniform_filter1d_constant (x : X) (size : Z) (n : nat) :
  (1 < size)%Z -> mean_stable size x ->
  Np.uniform_filter1d size (repeat x n) = repeat x n.
Proof.
  intros Hs Hx. destruct n as [|n]; [reflexivity|].
  unfold Np.uniform_filter1d. cbn [repeat].
  change (x :: repeat x n) with (repeat x (S n)).
  rewrite repeat_length.
  apply map_seq_const. intros i.
  rewrite window_constant.
  replace (Z.to_nat size) with (S (Z.to_nat size - 1)) by lia.
  exact Hx.
Qed.

End FilterConstant.

Section CoherenceConstant.

Open Scope R_scope.

Lemma fold_Rplus_repeat (c : R) (k : nat) :
  forall a, fold_left Rplus (repeat c k) a = a + INR k * c.
Proof.
  induction k as [|k IH]; intros a.
  - simpl. lra.
  - cbn [repeat fold_left]. rewrite IH, S_INR. lra.
Qed.

Lemma window_mean (c : R) (size : Z) :
  (1 < size)%Z ->
  (c + INR (Z.to_nat size - 1) * c) / IZR size = c.
Proof.
  intros Hs.
  rewrite INR_IZR_INZ.
  replace (Z.of_nat (Z.to_nat size - 1)) with (size - 1)%Z by lia.
  rewrite minus_IZR.
  assert (IZR size <> 0) by (apply not_0_IZR; lia).
  field. assumption.
Qed.

Lemma sample_stable (size : Z) (c : R) :
  (1 < size)%Z -> mean_stable size c.
Proof.
  intros Hs. unfold mean_stable. cbn [v_add v_div Vec_sample f_add f_div f_of_Z Arith_R].
  rewrite fold_Rplus_repeat. now apply window_mean.
Qed.





End CoherenceConstant.

(** ** Claims about coherence *)

Section CoherenceClaims.

Open Scope R_scope.

Lemma div_lt_l (a b d : R) : 0 < d -> a < b * d -> a / d < b.
Proof.
  intros Hd H. apply (Rmult_lt_reg_r d); [assumption|].
  unfold Rdiv. rewrite Rmult_assoc, Rinv_l by lra. lra.
Qed.




End CoherenceClaims.

(** ** The separable filter as a window mean *)

Lemma tab_length {A : Type} (n : nat) (f : nat -> A) :
  List.length (tab n f) = n.
Proof. unfold tab. now rewrite length_map, length_seq. Qed.

Lemma tab_nth {A : Type} (d : A) (n : nat) (f : nat -> A) (i : nat) :
  (i < n)%nat -> nth i (tab n f) d = f i.
Proof.
  intros Hi. unfold tab.
  rewrite (nth_indep _ d (f 0%nat)) by (now rewrite length_map, length_seq).
  rewrite (map_nth f). now rewrite seq_nth.
Qed.

Lemma tab_ext {A : Type} (n : nat) (f g : nat -> A) :
  (forall i, (i < n)%nat -> f i = g i) -> tab n f = tab n g.
Proof.
  intros Hfg. unfold tab. apply map_ext_in.
  intros i Hi. apply in_seq in Hi. apply Hfg. lia.
Qed.

Lemma tab_of_list {A : Type} (d : A) (l : list A) :
  l = tab (List.length l) (fun i => nth i l d).
Proof.
  apply (nth_ext _ _ d d).
  - now rewrite tab_length.
  - intros i Hi. now rewrite tab_nth.
Qed.

Lemma map_tab {A B : Type} (g : A -> B) (n : nat) (f : nat -> A) :
  map g (tab n f) = tab n (fun i => g (f i)).
Proof. unfold tab. now rewrite map_map. Qed.

Lemma map2_tab {A B C : Type} (h : A -> B -> C) (n : nat)
  (f : nat -> A) (g : nat -> B) :
  map2 h (tab n f) (tab n g) = tab n (fun i => h (f i) (g i)).
Proof.
  unfold map2, tab. generalize (seq 0 n) as l.
  induction l as [|x l IH]; simpl; [reflexivity|]. now rewrite IH.
Qed.

Lemma clamp_lt (n : nat) (z : Z) : (0 < n)%nat -> (Np.clamp n z < n)%nat.
Proof. intros Hn. unfold Np.clamp. lia. Qed.

Lemma clamp_inside (n i : nat) : (i < n)%nat -> Np.clamp n (Z.of_nat i) = i.
Proof. intros Hi. unfold Np.clamp. lia. Qed.

Section FilterTab.

Context {X : Type} `{Vec X}.

(** The filter on a tabulated line. *)
Lemma uniform_filter1d_tab (size : Z) (n : nat) (f : nat -> X) :
  Np.uniform_filter1d size (tab n f) = tab n (wmean size n f).
Proof.
  destruct n as [|n]; [reflexivity|].
  unfold Np.uniform_filter1d.
  change (tab (S n) f) with (f 0%nat :: map f (seq 1 n)) at 1.
  cbv beta iota.
  change (f 0%nat :: map f (seq 1 n)) with (tab (S n) f).
  rewrite tab_length. unfold tab at 2.
  apply map_ext. intros i. unfold wmean. f_equal. f_equal.
  unfold Np.window. apply map_ext. intros k.
  rewrite tab_length. apply tab_nth. apply clamp_lt. lia.
Qed.

(** A sum of tabulated rows is the row of the sums. *)
Lemma fold_add_tab (m : nat) (g : nat -> nat -> X) (ks : list nat) :
  forall a : nat -> X,
    fold_left (map2 v_add) (map (fun k => tab m (g k)) ks) (tab m a)
    = tab m (fun j => fold_left v_add (map (fun k => g k j) ks) (a j)).
Proof.
  induction ks as [|k ks IH]; intros a; simpl; [reflexivity|].
  now rewrite map2_tab, IH.
Qed.

Lemma vsum_tab (m : nat) (g : nat -> nat -> X) (ks : list nat) (d : list X)
  (d' : X) :
  ks <> [] ->
  Np.vsum d (map (fun k => tab m (g k)) ks)
  = tab m (fun j => Np.vsum d' (map (fun k => g k j) ks)).
Proof.
  intros Hks. destruct ks as [|k ks]; [congruence|].
  cbn [map Np.vsum]. apply fold_add_tab.
Qed.

End FilterTab.

(** The window mean of rows is the row of the window means. *)
Lemma wmean_tab {Y : Type} `{Vec Y} (size : Z) (n m : nat)
  (g : nat -> nat -> Y) (i : nat) :
  (1 <= size)%Z ->
  wmean size n (fun i' => tab m (g i')) i
  = tab m (fun j => wmean size n (fun i' => g i' j) i).
Proof.
  intros Hs. unfold wmean.
  rewrite (vsum_tab m
             (fun k => g (Np.clamp n (Z.of_nat i + Z.of_nat k - size / 2)))
             (tab m (g 0%nat)) (g 0%nat 0%nat)).
  - cbn [v_div Vec_list]. rewrite map_tab. apply tab_ext. intros j Hj.
    f_equal. destruct (seq 0 (Z.to_nat size)) as [|k ks] eqn:E.
    + apply (f_equal (@List.length nat)) in E. rewrite length_seq in E.
      simpl in E. lia.
    + reflexivity.
  - intros E. apply (f_equal (@List.length nat)) in E.
    rewrite length_seq in E. simpl in E. lia.
Qed.

Section Semblance.

Open Scope R_scope.

Lemma fold_left_Rsum (l : list R) : forall a, fold_left Rplus l a = a + Rsum l.
Proof.
  induction l as [|x l IH]; intros a; simpl; [lra|]. rewrite IH. lra.
Qed.



Lemma Rsum_plus {A : Type} (f g : A -> R) (l : list A) :
  Rsum (map (fun x => f x + g x) l) = Rsum (map f l) + Rsum (map g l).
Proof. induction l as [|x l IH]; simpl; [lra|]. rewrite IH. lra. Qed.

Lemma Rsum_div {A : Type} (f : A -> R) (c : R) (l : list A) :
  Rsum (map (fun x => f x / c) l) = Rsum (map f l) / c.
Proof.
  induction l as [|x l IH]; simpl; [unfold Rdiv; ring|].
  rewrite IH. unfold Rdiv. ring.
Qed.




Lemma wmean_smooth (size : Z) (n : nat) (h : nat -> R) (i : nat) :
  (1 <= size)%Z -> wmean size n h i = smooth size n h i.
Proof.
  intros Hs. unfold wmean, smooth.
  cbn [v_div Vec_sample f_div f_of_Z Arith_R]. f_equal.
  destruct (seq 0 (Z.to_nat size)) as [|k ks] eqn:E.
  - apply (f_equal (@List.length nat)) in E. rewrite length_seq in E.
    simpl in E. lia.
  - cbn [map Np.vsum v_add Vec_sample f_add Arith_R Rsum fold_right].
    apply fold_left_Rsum.
Qed.

Lemma smooth_one (n : nat) (h : nat -> R) (i : nat) :
  (i < n)%nat -> smooth 1 n h i = h i.
Proof.
  intros Hi. unfold smooth.
  change (Z.to_nat 1) with 1%nat. cbn [seq map Rsum fold_right].
  replace (Z.of_nat i + Z.of_nat 0 - 1 / 2)%Z with (Z.of_nat i)
    by (change (1 / 2)%Z with 0%Z; lia).
  rewrite clamp_inside by assumption. field.
Qed.

End Semblance.

Section SemblanceVolume.

Open Scope R_scope.


Lemma shape_tab3 (data : volume R) (n0 n1 n2 : nat) :
  has_shape data n0 n1 n2 -> data = tab3 n0 n1 n2 (sample_at data).
Proof.
  intros [H0 Hall]. rewrite Forall_forall in Hall.
  unfold tab3, sample_at.
  rewrite (tab_of_list [] data) at 1. rewrite H0.
  apply tab_ext. intros i Hi.
  destruct (Hall (nth i data [])) as [H1 Hrow];
    [apply nth_In; lia|].
  rewrite Forall_forall in Hrow.
  rewrite (tab_of_list [] (nth i data [])) at 1. rewrite H1.
  apply tab_ext. intros j Hj.
  rewrite (tab_of_list 0 (nth j (nth i data []) [])) at 1.
  rewrite (Hrow (nth j (nth i data []) [])) by (apply nth_In; lia).
  reflexivity.
Qed.

Lemma axis2 (size : Z) (n : nat) (h : nat -> R) :
  (1 <= size)%Z ->
  (if (1 <? size)%Z then Np.uniform_filter1d size (tab n h) else tab n h)
  = tab n (smooth size n h).
Proof.
  intros Hs. destruct (Z.ltb_spec 1 size) as [H1|H1].
  - rewrite uniform_filter1d_tab. apply tab_ext. intros i _.
    now apply wmean_smooth.
  - replace size with 1%Z by lia. apply tab_ext. intros i Hi.
    now rewrite smooth_one.
Qed.

Lemma axis1 (size : Z) (n1 n2 : nat) (h : nat -> nat -> R) :
  (1 <= size)%Z ->
  (if (1 <? size)%Z
   then Np.uniform_filter1d size (tab n1 (fun j => tab n2 (h j)))
   else tab n1 (fun j => tab n2 (h j)))
  = tab n1 (fun j => tab n2 (fun k => smooth size n1 (fun j' => h j' k) j)).
Proof.
  intros Hs. destruct (Z.ltb_spec 1 size) as [H1|H1].
  - rewrite uniform_filter1d_tab. apply tab_ext. intros j _.
    rewrite wmean_tab by assumption. apply tab_ext. intros k _.
    now apply wmean_smooth.
  - replace size with 1%Z by lia. apply tab_ext. intros j Hj.
    apply tab_ext. intros k _. now rewrite smooth_one.
Qed.

Lemma axis0 (size : Z) (n0 n1 n2 : nat) (h : nat -> nat -> nat -> R) :
  (1 <= size)%Z ->
  (if (1 <? size)%Z
   then Np.uniform_filter1d size (tab3 n0 n1 n2 h)
   else tab3 n0 n1 n2 h)
  = tab3 n0 n1 n2 (fun i j k => smooth size n0 (fun i' => h i' j k) i).
Proof.
  intros Hs. unfold tab3. destruct (Z.ltb_spec 1 size) as [H1|H1].
  - rewrite uniform_filter1d_tab. apply tab_ext. intros i _.
    rewrite wmean_tab by assumption. apply tab_ext. intros j _.
    rewrite wmean_tab by assumption. apply tab_ext. intros k _.
    now apply wmean_smooth.
  - replace size with 1%Z by lia. apply tab_ext. intros i Hi.
    apply tab_ext. intros j _. apply tab_ext. intros k _.
    now rewrite smooth_one.
Qed.

(** The three passes of [uniform_filter], sample by sample. *)
Lemma uniform_filter_tab3 (n0 n1 n2 : nat) (f : nat -> nat -> nat -> R)
  (s0 s1 s2 : Z) :
  (1 <= s0)%Z -> (1 <= s1)%Z -> (1 <= s2)%Z ->
  Np.uniform_filter (tab3 n0 n1 n2 f) s0 s1 s2
  = tab3 n0 n1 n2
      (fun i j k =>
         smooth s2 n2
           (fun k' =>
              smooth s1 n1
                (fun j' => smooth s0 n0 (fun i' => f i' j' k') i) j) k).
Proof.
  intros H0 H1 H2. unfold Np.uniform_filter.
  rewrite (axis0 n0 n1 n2 f H0).
  set (A0 := fun i j k => smooth s0 n0 (fun i' => f i' j k) i).
  assert (E1 : (if (1 <? s1)%Z
                then map (Np.uniform_filter1d s1) (tab3 n0 n1 n2 A0)
                else tab3 n0 n1 n2 A0)
               = tab3 n0 n1 n2
                   (fun i j k => smooth s1 n1 (fun j' => A0 i j' k) j)).
  { unfold tab3. destruct (1 <? s1)%Z eqn:E.
    - rewrite map_tab. apply tab_ext. intros i _.
      pose proof (axis1 n1 n2 (A0 i) H1) as Ha. rewrite E in Ha. exact Ha.
    - apply tab_ext. intros i _.
      pose proof (axis1 n1 n2 (A0 i) H1) as Ha. rewrite E in Ha. exact Ha. }
  rewrite E1.
  set (A1 := fun i j k => smooth s1 n1 (fun j' => A0 i j' k) j).
  unfold tab3. destruct (1 <? s2)%Z eqn:E.
  - rewrite map_tab. apply tab_ext. intros i _.
    rewrite map_tab. apply tab_ext. intros j _.
    pose proof (axis2 n2 (A1 i j) H2) as Ha. rewrite E in Ha. exact Ha.
  - apply tab_ext. intros i _. apply tab_ext. intros j _.
    pose proof (axis2 n2 (A1 i j) H2) as Ha. rewrite E in Ha. exact Ha.
Qed.

End SemblanceVolume.

Section SemblanceFormula.

Open Scope R_scope.




Lemma map3_tab3 (g : R -> R) (n0 n1 n2 : nat) (f : nat -> nat -> nat -> R) :
  map (map (map g)) (tab3 n0 n1 n2 f) = tab3 n0 n1 n2 (fun i j k => g (f i j k)).
Proof.
  unfold tab3. rewrite map_tab. apply tab_ext. intros i _.
  rewrite map_tab. apply tab_ext. intros j _. now rewrite map_tab.
Qed.

Lemma map2_tab3 (g : R -> R -> R) (n0 n1 n2 : nat)
  (A B : nat -> nat -> nat -> R) :
  map2 (map2 (map2 g)) (tab3 n0 n1 n2 A) (tab3 n0 n1 n2 B)
  = tab3 n0 n1 n2 (fun i j k => g (A i j k) (B i j k)).
Proof.
  unfold tab3. rewrite map2_tab. apply tab_ext. intros i _.
  rewrite map2_tab. apply tab_ext. intros j _. now rewrite map2_tab.
Qed.




End SemblanceFormula.

Section SquareSums.

Open Scope R_scope.

Lemma Rsum_squares_nonneg (l : list R) : 0 <= Rsum (map (fun x => x * x) l).
Proof. induction l as [|x l IH]; simpl; [lra | nra]. Qed.

End SquareSums.

(** ** The z-window pass without overflow *)







Section ZWindowOverflow.

Open Scope R_scope.

Import Xreal.



































End ZWindowOverflow.

(** * Further properties of the script *)

(** ** [parse_range] and [parse_patch], read backwards *)

Lemma mapM_inv {A B : Type} (f : A -> result B) (l : list A) :
  forall out, mapM f l = Ok out -> Forall2 (fun x y => f x = Ok y) l out.
Proof.
  induction l as [|x r IH]; intros out Hm; simpl in Hm.
  - injection Hm as <-. constructor.
  - destruct (f x) as [y|e] eqn:Hx; [|discriminate Hm]. simpl in Hm.
    destruct (mapM f r) as [ys|e] eqn:Hr; [|discriminate Hm]. simpl in Hm.
    injection Hm as <-. constructor; [assumption | now apply IH].
Qed.

Lemma of_int_inv (o : option Z) (z : Z) : of_int o = Ok z -> o = Some z.
Proof. destruct o; simpl; congruence. Qed.

Lemma int_fields_printed2 (sep : ascii) (a b : Z) :
  Py.digit sep = None -> sep <> "-"%char ->
  int_fields sep (Py.str a ++ String sep (Py.str b)) = Ok [a; b].
Proof.
  intros Hd Hm. unfold int_fields.
  rewrite split_app by now apply contains_str.
  rewrite split_none by now apply contains_str.
  cbn [mapM]. now rewrite !int_str.
Qed.

Lemma int_fields_printed3 (sep : ascii) (a b c : Z) :
  Py.digit sep = None -> sep <> "-"%char ->
  int_fields sep (Py.str a ++ String sep (Py.str b ++ String sep (Py.str c)))
  = Ok [a; b; c].
Proof.
  intros Hd Hm. unfold int_fields.
  rewrite split_app by now apply contains_str.
  rewrite split_app by now apply contains_str.
  rewrite split_none by now apply contains_str.
  cbn [mapM]. now rewrite !int_str.
Qed.

(** X1: whatever [parse_range] returns is a pair with [start < end], read
    from a string made of exactly two fields around one colon, each an
    integer literal. *)
Theorem parse_range_sound (s : string) (a b : Z)
  (Hs : parse_range s = Ok (a, b)) :
  (a < b)%Z /\
  exists sa sb,
    Py.split ":"%char s = [sa; sb] /\ Py.int sa = Some a /\ Py.int sb = Some b.
Proof.
  unfold parse_range in Hs.
  destruct (negb (Py.contains ":"%char s)); [discriminate Hs|].
  destruct (int_fields ":"%char s) as [parts|e] eqn:Hf; [|discriminate Hs].
  cbn [bind] in Hs.
  destruct parts as [|x [|y [|z parts]]]; try discriminate Hs.
  destruct (x >=? y)%Z eqn:Hge; [discriminate Hs|].
  injection Hs as <- <-.
  split.
  - rewrite Z.geb_leb in Hge. apply Z.leb_gt in Hge. exact Hge.
  - apply mapM_inv in Hf.
    inversion Hf as [|sa ? r1 ? Ha Hr1]; subst.
    inversion Hr1 as [|sb ? r2 ? Hb Hr2]; subst.
    inversion Hr2; subst.
    exists sa, sb. repeat split; now apply of_int_inv.
Qed.

Lemma parse_range_sound_witness :
  (3 < 7)%Z /\
  exists sa sb,
    Py.split ":"%char "3:7" = [sa; sb] /\
    Py.int sa = Some 3%Z /\ Py.int sb = Some 7%Z.
Proof.
  apply (@parse_range_sound "3:7" 3 7 eq_refl).
Defined.

(** X2: a printed pair whose start is not below its end is refused:
    ["5:5"] and ["10:3"] raise [ValueError]. *)
Theorem parse_range_rejects_inverted (a b : Z) (Hba : (b <= a)%Z) :
  parse_range (Py.str a ++ ":" ++ Py.str b) = Raise ValueError.
Proof.
  unfold parse_range.
  change (Py.str a ++ ":" ++ Py.str b)%string
    with (Py.str a ++ String ":" (Py.str b))%string.
  rewrite contains_app. cbn [negb].
  rewrite int_fields_printed2 by (reflexivity || discriminate).
  cbn [bind]. rewrite Z.geb_leb.
  replace (b <=? a)%Z with true by (symmetry; apply Z.leb_le; lia).
  reflexivity.
Qed.

Lemma parse_range_rejects_inverted_witness :
  parse_range "10:3" = Raise ValueError.
Proof.
  apply (@parse_range_rejects_inverted 10 3). discriminate.
Defined.

Lemma make_odd_fixed (p : Z) : make_odd (make_odd p) = make_odd p.
Proof.
  pose proof (make_odd_odd p) as Ho. rewrite Zodd_mod in Ho.
  apply Z.eqb_eq in Ho.
  unfold make_odd at 1. unfold Py.mod2. rewrite Ho. reflexivity.
Qed.

Lemma parse_patch_inv (s : string) (a b c : Z) :
  parse_patch s = Ok (a, b, c) ->
  exists py px pz,
    int_fields ","%char s = Ok [py; px; pz] /\
    a = make_odd py /\ b = make_odd px /\ c = make_odd pz /\
    (3 <= a /\ 3 <= b /\ 3 <= c)%Z.
Proof.
  unfold parse_patch. intros Hs.
  destruct (int_fields ","%char s) as [parts|e]; [|discriminate Hs].
  destruct parts as [|py [|px [|pz [|w parts]]]]; try discriminate Hs.
  cbn [existsb] in Hs.
  destruct (make_odd py <? 3)%Z eqn:Ey; [discriminate Hs|].
  destruct (make_odd px <? 3)%Z eqn:Ex; [discriminate Hs|].
  destruct (make_odd pz <? 3)%Z eqn:Ez; [discriminate Hs|].
  cbn [orb] in Hs. injection Hs as <- <- <-.
  apply Z.ltb_ge in Ey, Ex, Ez.
  exists py, px, pz. repeat split; assumption.
Qed.

(** X3: a triple returned by [parse_patch] comes from exactly three
    integer fields, its sizes are odd and at least 3, and printing it
    with commas and parsing it again returns the same triple. *)
Theorem parse_patch_sound (s : string) (a b c : Z)
  (Hs : parse_patch s = Ok (a, b, c)) :
  (exists sy sx sz, Py.split ","%char s = [sy; sx; sz]) /\
  (3 <= a /\ 3 <= b /\ 3 <= c)%Z /\
  Z.odd a && Z.odd b && Z.odd c = true /\
  parse_patch (Py.str a ++ "," ++ Py.str b ++ "," ++ Py.str c) = Ok (a, b, c).
Proof.
  apply parse_patch_inv in Hs.
  destruct Hs as (py & px & pz & Hf & -> & -> & -> & Hge).
  split; [|split; [exact Hge|split]].
  - unfold int_fields in Hf. apply mapM_inv in Hf.
    inversion Hf as [|sy ? r1 ? _ Hr1]; subst.
    inversion Hr1 as [|sx ? r2 ? _ Hr2]; subst.
    inversion Hr2 as [|sz ? r3 ? _ Hr3]; subst.
    inversion Hr3; subst. now exists sy, sx, sz.
  - now rewrite !make_odd_odd.
  - unfold parse_patch.
    change (Py.str (make_odd py) ++ "," ++ Py.str (make_odd px) ++ ","
            ++ Py.str (make_odd pz))%string
      with (Py.str (make_odd py)
            ++ String "," (Py.str (make_odd px)
                           ++ String "," (Py.str (make_odd pz))))%string.
    rewrite int_fields_printed3 by (reflexivity || discriminate).
    rewrite !make_odd_fixed. cbn [existsb].
    destruct Hge as (Hy & Hx & Hz).
    replace (make_odd py <? 3)%Z with false by (symmetry; apply Z.ltb_ge; lia).
    replace (make_odd px <? 3)%Z with false by (symmetry; apply Z.ltb_ge; lia).
    replace (make_odd pz <? 3)%Z with false by (symmetry; apply Z.ltb_ge; lia).
    reflexivity.
Qed.

Lemma parse_patch_sound_witness :
  (exists sy sx sz, Py.split ","%char " 4, 6 ,+8" = [sy; sx; sz]) /\
  (3 <= 5 /\ 3 <= 7 /\ 3 <= 9)%Z /\
  Z.odd 5 && Z.odd 7 && Z.odd 9 = true /\
  parse_patch (Py.str 5 ++ "," ++ Py.str 7 ++ "," ++ Py.str 9) = Ok (5, 7, 9)%Z.
Proof.
  apply (@parse_patch_sound " 4, 6 ,+8" 5 7 9 eq_refl).
Defined.

(** ** What the loader returns, sample by sample *)

Lemma nth_error_range (a b : Z) (i : nat) :
  (Z.of_nat i < b - a)%Z -> nth_error (Py.range a b) i = Some (a + Z.of_nat i)%Z.
Proof.
  intros Hi. unfold Py.range.
  rewrite nth_error_map, nth_error_seq.
  replace (i <? Z.to_nat (b - a))%nat with true
    by (symmetry; apply Nat.ltb_lt; lia).
  reflexivity.
Qed.

Lemma nth_error_slice {A : Type} (l : list A) (a b : Z) (k : nat) :
  (0 <= a <= b)%Z -> (b <= Z.of_nat (List.length l))%Z ->
  (Z.of_nat k < b - a)%Z ->
  nth_error (Py.slice l a b) k = nth_error l (Z.to_nat (a + Z.of_nat k)).
Proof.
  intros Hab Hb Hk. rewrite slice_within by assumption.
  rewrite nth_error_firstn.
  replace (k <? Z.to_nat (b - a))%nat with true
    by (symmetry; apply Nat.ltb_lt; lia).
  rewrite nth_error_skipn. f_equal. lia.
Qed.

Section LoaderSamples.

Variables T F : Type.
Variable as_float32 : T -> F.

Lemma grid_sample (f : SegyFile T) (a0 b0 a1 b1 a2 b2 : Z) (i j k : nat) :
  traces_ok f ->
  (0 <= a0 <= b0)%Z /\ (b0 <= Z.of_nat (n_ilines f))%Z ->
  (0 <= a1 <= b1)%Z /\ (b1 <= Z.of_nat (n_xlines f))%Z ->
  (0 <= a2 <= b2)%Z /\ (b2 <= Z.of_nat (n_samples f))%Z ->
  (Z.of_nat i < b0 - a0)%Z -> (Z.of_nat j < b1 - a1)%Z ->
  (Z.of_nat k < b2 - a2)%Z ->
  exists x,
    trace_sample f (a0 + Z.of_nat i) (a1 + Z.of_nat j) (a2 + Z.of_nat k)
    = Some x /\
    sample_of (grid as_float32 f a0 b0 a1 b1 a2 b2) i j k
    = Some (as_float32 x).
Proof.
  intros Hf H0 H1 H2 Hi Hj Hk.
  set (il := (a0 + Z.of_nat i)%Z). set (xl := (a1 + Z.of_nat j)%Z).
  assert (Hil : (a0 <= il < b0)%Z) by (subst il; lia).
  assert (Hxl : (a1 <= xl < b1)%Z) by (subst xl; lia).
  pose proof (trace_index_bound Hf H0 H1 Hil Hxl) as Hidx.
  pose proof (trace_length Hf H0 H1 Hil Hxl) as Hlen.
  set (tr := nth (Z.to_nat (il * Z.of_nat (n_xlines f) + xl)) (trace f) []) in *.
  assert (Htr : nth_error (trace f)
                  (Z.to_nat (il * Z.of_nat (n_xlines f) + xl)) = Some tr).
  { apply nth_error_nth'. lia. }
  destruct (nth_error tr (Z.to_nat (a2 + Z.of_nat k))) as [x|] eqn:Hx;
    [|apply nth_error_None in Hx; lia].
  exists x. split.
  - unfold trace_sample. rewrite Htr. exact Hx.
  - unfold sample_of, grid.
    rewrite nth_error_map, nth_error_range by assumption. cbn [option_map].
    rewrite nth_error_map, nth_error_range by assumption. cbn [option_map].
    rewrite nth_error_map. fold il xl tr.
    rewrite nth_error_slice by (try assumption; lia).
    rewrite Hx. reflexivity.
Qed.

(** X4: for ranges inside the file, sample [(i, j, k)] of the loaded
    volume is sample [z_start + k] of the trace at inline [il_start + i]
    and crossline [xl_start + j], cast to [float32], on either path. *)
Theorem load_segy_cube_samples (f : SegyFile T) (il xl z : option (Z * Z))
  (Hf : file_ok f)
  (Hil : valid_range il (n_ilines f))
  (Hxl : valid_range xl (n_xlines f))
  (Hz : valid_range z (n_samples f)) :
  exists v,
    load_segy_cube as_float32 f il xl z None = Ok v /\
    forall i j k : nat,
      (Z.of_nat i < range_end il (n_ilines f) - range_start il)%Z ->
      (Z.of_nat j < range_end xl (n_xlines f) - range_start xl)%Z ->
      (Z.of_nat k < range_end z (n_samples f) - range_start z)%Z ->
      exists x,
        trace_sample f (range_start il + Z.of_nat i)
                       (range_start xl + Z.of_nat j)
                       (range_start z + Z.of_nat k) = Some x /\
        sample_of v i j k = Some (as_float32 x).
Proof.
  eexists. split; [now apply load_grid|].
  intros i j k Hi Hj Hk.
  apply grid_sample; try assumption;
    [exact (proj1 Hf) | now apply valid_range_bounds ..].
Qed.

End LoaderSamples.

Lemma load_segy_cube_samples_witness :
  exists v,
    load_segy_cube (fun x : Z => x) (small_file (Raise MemoryError))
                   (Some (1, 2)%Z) None (Some (1, 3)%Z) None = Ok v /\
    forall i j k : nat,
      (Z.of_nat i < 2 - 1)%Z -> (Z.of_nat j < 2 - 0)%Z ->
      (Z.of_nat k < 3 - 1)%Z ->
      exists x,
        trace_sample (small_file (Raise MemoryError))
                     (1 + Z.of_nat i) (0 + Z.of_nat j) (1 + Z.of_nat k)
        = Some x /\
        sample_of v i j k = Some x.
Proof.
  apply (@load_segy_cube_samples Z Z (fun x => x)
           (small_file (Raise MemoryError))
           (Some (1, 2)%Z) None (Some (1, 3)%Z)).
  - split; [apply small_file_traces_ok | right; reflexivity].
  - simpl. lia.
  - exact I.
  - simpl. lia.
Defined.

(** ** Axis permutation *)

Lemma perm_cases (perm : list Z) :
  is_permutation perm = true ->
  In perm [[0; 1; 2]; [0; 2; 1]; [1; 0; 2]; [1; 2; 0]; [2; 0; 1]; [2; 1; 0]]%Z.
Proof.
  unfold is_permutation. intros Hp.
  apply andb_prop in Hp. destruct Hp as [Hp Hin].
  apply andb_prop in Hp. destruct Hp as [Hlen Hall].
  apply Nat.eqb_eq in Hlen.
  destruct perm as [|p0 [|p1 [|p2 [|p3 perm]]]]; try discriminate Hlen.
  assert (Hdom : forall p, In p [p0; p1; p2] -> p = 0%Z \/ p = 1%Z \/ p = 2%Z).
  { intros p Hin'. rewrite forallb_forall in Hin. specialize (Hin p Hin').
    cbn [existsb] in Hin. rewrite orb_false_r in Hin.
    apply orb_prop in Hin. destruct Hin as [E|E];
      [left; now apply Z.eqb_eq in E|].
    apply orb_prop in E. destruct E as [E|E];
      [right; left | right; right]; now apply Z.eqb_eq in E. }
  destruct (Hdom p0) as [E0|[E0|E0]]; [simpl; tauto| | |];
    (destruct (Hdom p1) as [E1|[E1|E1]]; [simpl; tauto| | |]);
    (destruct (Hdom p2) as [E2|[E2|E2]]; [simpl; tauto| | |]);
    subst; try discriminate Hall; simpl; tauto.
Qed.

Section Transpose.

Variable F : Type.

Lemma shape3_of_shape (v : volume F) (n0 n1 n2 : nat) :
  has_shape v n0 n1 n2 -> (0 < n0)%nat -> (0 < n1)%nat ->
  shape3 v = [n0; n1; n2].
Proof.
  intros [H0 Hall] Hn0 Hn1. unfold shape3.
  destruct v as [|plane rest]; [simpl in H0; lia|].
  inversion Hall as [|? ? [H1 Hrow] _]; subst.
  destruct plane as [|tr more]; [simpl in Hn1; lia|].
  inversion Hrow; subst. reflexivity.
Qed.

Lemma sample_of_inside (v : volume F) (n0 n1 n2 : nat) (a b c : nat) :
  has_shape v n0 n1 n2 -> (a < n0)%nat -> (b < n1)%nat -> (c < n2)%nat ->
  exists x, sample_of v a b c = Some x.
Proof.
  intros [H0 Hall] Ha Hb Hc. rewrite Forall_forall in Hall.
  unfold sample_of.
  destruct (nth_error v a) as [plane|] eqn:Ep;
    [|apply nth_error_None in Ep; lia].
  destruct (Hall plane (nth_error_In _ _ Ep)) as [H1 Hrow].
  rewrite Forall_forall in Hrow.
  destruct (nth_error plane b) as [tr|] eqn:Et;
    [|apply nth_error_None in Et; lia].
  pose proof (Hrow tr (nth_error_In _ _ Et)) as H2.
  destruct (nth_error tr c) as [x|] eqn:Ex;
    [now exists x | apply nth_error_None in Ex; lia].
Qed.

Lemma get3_sample (v : volume F) (a b c : nat) :
  get3 v a b c = match sample_of v a b c with Some x => [x] | None => [] end.
Proof.
  unfold get3, sample_of.
  destruct (nth_error v a) as [plane|]; [|reflexivity].
  destruct (nth_error plane b) as [tr|]; reflexivity.
Qed.

Lemma flat_map_ones {A : Type} (g : nat -> list F) (l : list nat) :
  (forall x, In x l -> exists y, g x = [y]) ->
  List.length (flat_map g l) = List.length l /\
  forall i, nth_error (flat_map g l) i
            = match nth_error l i with
              | Some x => nth_error (g x) 0
              | None => None
              end.
Proof.
  induction l as [|x l IH]; intros Hg.
  - split; [reflexivity|]. intros [|i]; reflexivity.
  - destruct (Hg x (or_introl eq_refl)) as [y Hy].
    destruct IH as [IHlen IHnth]; [intros x' Hx'; apply Hg; now right|].
    cbn [flat_map]. rewrite Hy. cbn [app List.length]. split.
    + now rewrite IHlen.
    + intros [|i]; cbn [nth_error]; [now rewrite Hy | apply IHnth].
Qed.

(** An array built sample by sample from positions inside [v]. *)
Lemma gather_shape (v : volume F) (n0 n1 n2 d0 d1 d2 : nat)
  (q0 q1 q2 : nat -> nat -> nat -> nat) :
  has_shape v n0 n1 n2 ->
  (forall i0 i1 i2, (i0 < d0)%nat -> (i1 < d1)%nat -> (i2 < d2)%nat ->
                    (q0 i0 i1 i2 < n0)%nat /\ (q1 i0 i1 i2 < n1)%nat /\
                    (q2 i0 i1 i2 < n2)%nat) ->
  let w := map (fun i0 =>
             map (fun i1 =>
                flat_map (fun i2 => get3 v (q0 i0 i1 i2) (q1 i0 i1 i2)
                                           (q2 i0 i1 i2))
                         (seq 0 d2))
                 (seq 0 d1))
               (seq 0 d0) in
  has_shape w d0 d1 d2 /\
  forall i0 i1 i2, (i0 < d0)%nat -> (i1 < d1)%nat -> (i2 < d2)%nat ->
    sample_of w i0 i1 i2
    = sample_of v (q0 i0 i1 i2) (q1 i0 i1 i2) (q2 i0 i1 i2) /\
    sample_of w i0 i1 i2 <> None.
Proof.
  intros Hv Hq w.
  assert (Hone : forall i0 i1, (i0 < d0)%nat -> (i1 < d1)%nat ->
            forall i2, In i2 (seq 0 d2) ->
            exists y, get3 v (q0 i0 i1 i2) (q1 i0 i1 i2) (q2 i0 i1 i2) = [y]).
  { intros i0 i1 H0 H1 i2 H2. apply in_seq in H2.
    destruct (Hq i0 i1 i2) as (Ha & Hb & Hc); [lia..|].
    destruct (sample_of_inside Hv Ha Hb Hc) as [x Hx].
    exists x. now rewrite get3_sample, Hx. }
  split.
  - split; [subst w; now rewrite length_map, length_seq|].
    apply Forall_forall. intros plane Hp. subst w.
    apply in_map_iff in Hp. destruct Hp as [i0 [<- Hi0]]. apply in_seq in Hi0.
    split; [now rewrite length_map, length_seq|].
    apply Forall_forall. intros tr Ht.
    apply in_map_iff in Ht. destruct Ht as [i1 [<- Hi1]]. apply in_seq in Hi1.
    destruct (@flat_map_ones F _ (seq 0 d2) (Hone i0 i1 ltac:(lia) ltac:(lia)))
      as [Hlen _].
    now rewrite Hlen, length_seq.
  - intros i0 i1 i2 H0 H1 H2. subst w. unfold sample_of at 1 3.
    rewrite nth_error_map, nth_error_seq.
    replace (i0 <? d0)%nat with true by (symmetry; apply Nat.ltb_lt; lia).
    cbn [option_map].
    rewrite nth_error_map, nth_error_seq.
    replace (i1 <? d1)%nat with true by (symmetry; apply Nat.ltb_lt; lia).
    cbn [option_map].
    destruct (@flat_map_ones F _ (seq 0 d2) (Hone i0 i1 H0 H1)) as [_ Hnth].
    rewrite Hnth, nth_error_seq.
    replace (i2 <? d2)%nat with true by (symmetry; apply Nat.ltb_lt; lia).
    cbn [Nat.add].
    destruct (Hq i0 i1 i2 H0 H1 H2) as (Ha & Hb & Hc).
    destruct (sample_of_inside Hv Ha Hb Hc) as [x Hx].
    rewrite get3_sample, Hx. cbn [nth_error]. split; [reflexivity|discriminate].
Qed.

(** [np.transpose] on an array with at least one plane and one row. *)
Lemma transpose_shape (v : volume F) (n0 n1 n2 : nat) (perm : list Z) :
  has_shape v n0 n1 n2 -> (0 < n0)%nat -> (0 < n1)%nat ->
  is_permutation perm = true ->
  has_shape (transpose v perm)
            (permuted_dim [n0; n1; n2] perm 0)
            (permuted_dim [n0; n1; n2] perm 1)
            (permuted_dim [n0; n1; n2] perm 2) /\
  forall i0 i1 i2,
    (i0 < permuted_dim [n0; n1; n2] perm 0)%nat ->
    (i1 < permuted_dim [n0; n1; n2] perm 1)%nat ->
    (i2 < permuted_dim [n0; n1; n2] perm 2)%nat ->
    sample_of (transpose v perm) i0 i1 i2
    = sample_of v (place perm i0 i1 i2 0) (place perm i0 i1 i2 1)
                  (place perm i0 i1 i2 2) /\
    sample_of (transpose v perm) i0 i1 i2 <> None.
Proof.
  intros Hv Hn0 Hn1 Hp. unfold transpose, permuted_dim.
  rewrite (shape3_of_shape Hv Hn0 Hn1).
  apply perm_cases in Hp.
  apply (gather_shape (v := v) (n0 := n0) (n1 := n1) (n2 := n2)); [exact Hv|].
  simpl in Hp.
  destruct Hp as [<-|[<-|[<-|[<-|[<-|[<-|[]]]]]]];
    intros i0 i1 i2 H0 H1 H2; cbv in H0, H1, H2; cbn; lia.
Qed.

End Transpose.

Lemma int_fields_error (sep : ascii) (s : string) (e : exn) :
  int_fields sep s = Raise e -> e = ValueError.
Proof.
  unfold int_fields. generalize (Py.split sep s) as l.
  induction l as [|x l IH]; simpl; [discriminate|].
  destruct (Py.int x); simpl.
  - destruct (mapM _ l) as [ys|e'] eqn:E; simpl; [discriminate|].
    intros Hr. injection Hr as <-. now apply IH.
  - congruence.
Qed.

Lemma slice_negative_start {A : Type} (l : list A) (a b : Z) :
  (a < 0)%Z ->
  Py.slice l a b = Py.slice l (Z.max (a + Z.of_nat (List.length l)) 0) b.
Proof.
  intros Ha. unfold Py.slice, Py.slice_bound.
  replace (a <? 0)%Z with true by (symmetry; apply Z.ltb_lt; lia).
  replace (Z.max (a + Z.of_nat (List.length l)) 0 <? 0)%Z with false
    by (symmetry; apply Z.ltb_ge; lia).
  rewrite (Z.min_l (Z.max _ _)) by lia. reflexivity.
Qed.

Section LoaderSwap.

Variables T F : Type.
Variable as_float32 : T -> F.

(** X5: with ranges inside a file that has at least one inline and one
    crossline, and a [swap_axes] string that lists a permutation of
    0, 1, 2, the loader returns the cropped volume with its axes
    permuted: axis [k] of the result has the extent of axis [perm[k]],
    and sample [(i0, i1, i2)] is the sample of the cropped volume whose
    index along axis [perm[k]] is [ik]. *)
Theorem load_segy_cube_transposed (f : SegyFile T)
  (il xl z : option (Z * Z)) (s : string) (perm : list Z)
  (Hf : file_ok f)
  (Hil : valid_range il (n_ilines f))
  (Hxl : valid_range xl (n_xlines f))
  (Hz : valid_range z (n_samples f))
  (Hn0 : (0 < n_ilines f)%nat) (Hn1 : (0 < n_xlines f)%nat)
  (Hs : int_fields ","%char s = Ok perm)
  (Hp : is_permutation perm = true) :
  let dims := [Z.to_nat (range_end il (n_ilines f) - range_start il);
               Z.to_nat (range_end xl (n_xlines f) - range_start xl);
               Z.to_nat (range_end z (n_samples f) - range_start z)] in
  exists v v',
    load_segy_cube as_float32 f il xl z None = Ok v /\
    load_segy_cube as_float32 f il xl z (Some s) = Ok v' /\
    has_shape v' (permuted_dim dims perm 0) (permuted_dim dims perm 1)
              (permuted_dim dims perm 2) /\
    forall i0 i1 i2,
      (i0 < permuted_dim dims perm 0)%nat ->
      (i1 < permuted_dim dims perm 1)%nat ->
      (i2 < permuted_dim dims perm 2)%nat ->
      sample_of v' i0 i1 i2
      = sample_of v (place perm i0 i1 i2 0) (place perm i0 i1 i2 1)
                    (place perm i0 i1 i2 2) /\
      sample_of v' i0 i1 i2 <> None.
Proof.
  intros dims.
  pose proof (@load_grid T F as_float32 f il xl z Hf Hil Hxl Hz) as Hload.
  set (v := grid as_float32 f _ _ _ _ _ _) in Hload.
  assert (Hv : has_shape v (nth 0 dims 0%nat) (nth 1 dims 0%nat)
                           (nth 2 dims 0%nat)).
  { subst v dims. cbn [nth].
    apply grid_shape; [exact (proj1 Hf) | now apply valid_range_bounds ..]. }
  assert (Hd0 : (0 < nth 0 dims 0)%nat).
  { subst dims. cbn [nth]. destruct il as [[a b]|]; simpl in *; lia. }
  assert (Hd1 : (0 < nth 1 dims 0)%nat).
  { subst dims. cbn [nth]. destruct xl as [[a b]|]; simpl in *; lia. }
  exists v, (transpose v perm). split; [exact Hload|]. split.
  - assert (Hne : s <> EmptyString) by (intros ->; discriminate Hs).
    unfold load_segy_cube in Hload |- *.
    destruct (_ || _ || _); [discriminate Hload|].
    destruct (match cube f with Ok c => _ | Raise e => _ end) as [data|e];
      [|discriminate Hload].
    cbn [bind] in Hload |- *. injection Hload as ->.
    destruct s as [|c0 s']; [congruence|].
    rewrite Hs. cbn [bind]. now rewrite Hp.
  - subst dims. cbn [nth] in Hv, Hd0, Hd1.
    apply transpose_shape; assumption.
Qed.

(** X6: when the [swap_axes] string is not empty and does not list a
    permutation of 0, 1, 2 (fields that are not integers included), the
    loader raises [ValueError], after the volume has been read. *)
Theorem load_segy_cube_bad_permutation (f : SegyFile T)
  (il xl z : option (Z * Z)) (s : string)
  (Hf : file_ok f)
  (Hil : valid_range il (n_ilines f))
  (Hxl : valid_range xl (n_xlines f))
  (Hz : valid_range z (n_samples f))
  (Hne : s <> EmptyString)
  (Hbad : forall perm, int_fields ","%char s = Ok perm ->
                       is_permutation perm = false) :
  load_segy_cube as_float32 f il xl z (Some s) = Raise ValueError.
Proof.
  pose proof (@load_grid T F as_float32 f il xl z Hf Hil Hxl Hz) as Hload.
  unfold load_segy_cube in Hload |- *.
  destruct (_ || _ || _); [reflexivity|].
  destruct (match cube f with Ok c => _ | Raise e => _ end) as [data|e];
    [|discriminate Hload].
  cbn [bind]. destruct s as [|c0 s']; [congruence|].
  destruct (int_fields ","%char (String c0 s')) as [perm|e] eqn:Hs.
  - cbn [bind]. now rewrite (Hbad perm eq_refl).
  - cbn [bind]. now rewrite (int_fields_error _ _ Hs).
Qed.

(** X7: on the bulk path a negative inline start is not refused: it
    counts from the end of the axis, so the request [(a, b)] with
    [a < 0] returns what [(max (a + n_ilines) 0, b)] returns. *)
Theorem load_segy_cube_negative_start (f : SegyFile T) (c : volume T)
  (a b : Z) (xl z : option (Z * Z)) (swap_axes : option string)
  (Hc : cube f = Ok c) (Hlen : List.length c = n_ilines f)
  (Ha : (a < 0)%Z) :
  load_segy_cube as_float32 f (Some (a, b)) xl z swap_axes
  = load_segy_cube as_float32 f
      (Some (Z.max (a + Z.of_nat (n_ilines f)) 0, b)) xl z swap_axes.
Proof.
  unfold load_segy_cube. rewrite Hc. cbn [range_start range_end].
  unfold crop. rewrite (slice_negative_start c b Ha), Hlen. reflexivity.
Qed.

End LoaderSwap.

Lemma load_segy_cube_transposed_witness :
  exists v v',
    load_segy_cube (fun x : Z => x) (small_file (Raise MemoryError))
                   None None None None = Ok v /\
    load_segy_cube (fun x : Z => x) (small_file (Raise MemoryError))
                   None None None (Some "2,0,1"%string) = Ok v' /\
    has_shape v' 3 2 2 /\
    forall i0 i1 i2,
      (i0 < 3)%nat -> (i1 < 2)%nat -> (i2 < 2)%nat ->
      sample_of v' i0 i1 i2 = sample_of v i1 i2 i0 /\
      sample_of v' i0 i1 i2 <> None.
Proof.
  apply (@load_segy_cube_transposed Z Z (fun x => x)
           (small_file (Raise MemoryError)) None None None
           "2,0,1"%string [2; 0; 1]%Z).
  - split; [apply small_file_traces_ok | right; reflexivity].
  - exact I.
  - exact I.
  - exact I.
  - simpl. lia.
  - simpl. lia.
  - reflexivity.
  - reflexivity.
Defined.

Lemma load_segy_cube_bad_permutation_witness :
  load_segy_cube (fun x : Z => x) (small_file (Raise MemoryError))
                 None None None (Some "0,1,1"%string) = Raise ValueError.
Proof.
  apply (@load_segy_cube_bad_permutation Z Z (fun x => x)
           (small_file (Raise MemoryError)) None None None "0,1,1"%string).
  - split; [apply small_file_traces_ok | right; reflexivity].
  - exact I.
  - exact I.
  - exact I.
  - discriminate.
  - intros perm Hperm. injection Hperm as <-. reflexivity.
Defined.

Lemma load_segy_cube_negative_start_witness :
  load_segy_cube (fun x : Z => x)
                 (small_file (Ok [[[1; 2; 3]; [4; 5; 6]]; [[7; 8; 9]; [10; 11; 12]]]%Z))
                 (Some (-1, 2)%Z) None None None
  = load_segy_cube (fun x : Z => x)
                 (small_file (Ok [[[1; 2; 3]; [4; 5; 6]]; [[7; 8; 9]; [10; 11; 12]]]%Z))
                 (Some (Z.max (-1 + 2) 0, 2)%Z) None None None.
Proof.
  apply (@load_segy_cube_negative_start Z Z (fun x => x)
           (small_file (Ok [[[1; 2; 3]; [4; 5; 6]]; [[7; 8; 9]; [10; 11; 12]]]%Z))
           _ (-1) 2 None None None eq_refl eq_refl eq_refl).
Defined.

(** ** Normalisation: shapes and windows, for any arithmetic *)

Lemma mapM_raise {A B : Type} (f : A -> result B) (x : A) (r : list A) (e : exn) :
  f x = Raise e -> mapM f (x :: r) = Raise e.
Proof. intros Hx. simpl. now rewrite Hx. Qed.

Lemma Forall2_row {A B : Type} (p : list (list A)) (q : list (list B))
  (n : nat) :
  Forall2 (fun tr out => List.length out = List.length tr) p q ->
  Forall (fun tr => List.length tr = n) p ->
  Forall (fun out => List.length out = n) q.
Proof.
  induction 1 as [|t o p q Hto _ IH]; intros Hrow; [constructor|].
  inversion Hrow as [|? ? Ht Hrest]; subst.
  constructor; [congruence | now apply IH].
Qed.

Lemma Forall2_shape {A B : Type} (u : volume A) (v : volume B) (n0 n1 n2 : nat) :
  has_shape u n0 n1 n2 ->
  Forall2 (Forall2 (fun tr out => List.length out = List.length tr)) u v ->
  has_shape v n0 n1 n2.
Proof.
  intros [H0 Hall] HF. split.
  - rewrite <- (Forall2_length HF). exact H0.
  - clear H0. induction HF as [|p q u v Hpq _ IH]; [constructor|].
    inversion Hall as [|? ? Hp Hrest]. destruct Hp as [H1 Hrow].
    constructor; [|now apply IH]. split.
    + rewrite <- (Forall2_length Hpq). exact H1.
    + exact (Forall2_row Hpq Hrow).
Qed.

Lemma map_shape {A B : Type} (g : list A -> list B) (u : volume A)
  (n0 n1 n2 : nat) :
  (forall tr, List.length (g tr) = List.length tr) ->
  has_shape u n0 n1 n2 -> has_shape (map (map g) u) n0 n1 n2.
Proof.
  intros Hg [H0 Hall]. split; [now rewrite length_map|].
  rewrite Forall_forall in Hall. apply Forall_forall. intros q Hq.
  apply in_map_iff in Hq. destruct Hq as [p [<- Hp]].
  destruct (Hall p Hp) as [H1 Hrow]. split; [now rewrite length_map|].
  rewrite Forall_forall in Hrow. apply Forall_forall. intros o Ho.
  apply in_map_iff in Ho. destruct Ho as [t [<- Ht]].
  rewrite Hg. now apply Hrow.
Qed.

Section NormalizeShape.

Context {F : Type} `{Arith F}.

Lemma normalize_trace_length (eps : F) (tr : list F) :
  List.length (normalize_trace eps tr) = List.length tr.
Proof. unfold normalize_trace. now rewrite length_map. Qed.

Lemma normalize_z_trace_length (z_window : Z) (eps : F) (tr : list F) :
  (3 <= z_window)%Z -> tr <> [] ->
  exists out,
    normalize_z_trace z_window eps tr = Ok out /\
    List.length out = List.length tr.
Proof.
  intros Hw Hne. destruct tr as [|x r]; [congruence|].
  assert (Hpad : (0 < z_window / 2)%Z) by (Z.div_mod_to_equations; lia).
  destruct (@pad_reflect_length F _ (z_window / 2) x r) as [padded [Hp Hlen]];
    [lia|].
  unfold normalize_z_trace. rewrite Hp. cbn [bind].
  assert (Hlm : forall l : list F, List.length l = List.length padded ->
                          List.length (local_mean z_window (z_window / 2) l)
                          = List.length (x :: r)).
  { intros l Hl. unfold local_mean. apply slice_trim; [assumption|].
    destruct (1 <? z_window)%Z;
      [rewrite uniform_filter1d_length|]; congruence. }
  assert (Hlv : List.length (local_var z_window (z_window / 2) padded)
                = List.length (x :: r)).
  { unfold local_var.
    rewrite map2_length, length_map, !Hlm by (now rewrite ?length_map).
    apply Nat.min_id. }
  rewrite broadcast2_same by (now rewrite Hlm). cbn [bind].
  unfold local_std.
  rewrite broadcast2_same
    by (now rewrite map2_length, length_map, Hlm, Hlv, Nat.min_id).
  eexists. split; [reflexivity|].
  now rewrite !map2_length, length_map, Hlm, Hlv, !Nat.min_id.
Qed.

Lemma odd_window (z_window : Z) :
  (2 <= z_window)%Z ->
  (3 <= (if (z_window mod 2 =? 0)%Z then z_window + 1 else z_window))%Z /\
  ((if (z_window mod 2 =? 0)%Z then z_window + 1 else z_window) / 2 <? 0)%Z
  = false.
Proof.
  intros Hw.
  destruct (Z.eqb_spec (z_window mod 2) 0); split;
    try (apply Z.ltb_ge); Z.div_mod_to_equations; lia.
Qed.

Lemma z_stage_shape (data : volume F) (n0 n1 n2 : nat) (z_window : Z) (eps : F) :
  has_shape data n0 n1 n2 -> (0 < n2)%nat -> (3 <= z_window)%Z ->
  exists out,
    mapM (mapM (normalize_z_trace z_window eps)) data = Ok out /\
    has_shape out n0 n1 n2.
Proof.
  intros Hs Hn2 Hw.
  destruct (@mapM_Forall2 _ _ (mapM (normalize_z_trace z_window eps))
              (Forall2 (fun tr out => List.length out = List.length tr)) data)
    as [out [Hout HF]].
  - destruct Hs as [_ Hall]. rewrite Forall_forall in Hall.
    apply Forall_forall. intros plane Hp.
    apply mapM_Forall2. destruct (Hall plane Hp) as [_ Hrow].
    rewrite Forall_forall in Hrow. apply Forall_forall. intros tr Ht.
    apply normalize_z_trace_length; [assumption|].
    intros ->. specialize (Hrow [] Ht). simpl in Hrow. lia.
  - exists out. split; [exact Hout | exact (Forall2_shape Hs HF)].
Qed.

(** X8: on a volume whose traces hold at least one sample, with a
    window of at least 2, [normalize_volume] returns in every mode, and
    what it returns has the shape of its input. *)
Theorem normalize_volume_shape (data : volume F) (n0 n1 n2 : nat)
  (mode : string) (z_window : Z) (eps : F)
  (Hs : has_shape data n0 n1 n2) (Hn2 : (0 < n2)%nat)
  (Hw : (2 <= z_window)%Z) :
  exists out,
    normalize_volume data mode z_window eps = Ok out /\
    has_shape out n0 n1 n2.
Proof.
  unfold normalize_volume.
  destruct (String.eqb mode "none"); [now exists data|].
  destruct (odd_window Hw) as [Hodd Hpad].
  assert (Ht : has_shape (map (map (normalize_trace eps)) data) n0 n1 n2)
    by (apply map_shape; [apply normalize_trace_length | exact Hs]).
  destruct (mode_in mode ["trace"; "both"]%string);
    destruct (mode_in mode ["z"; "both"]%string);
    rewrite ?Hpad;
    try (now apply z_stage_shape);
    eexists; split; try reflexivity; assumption.
Qed.

(** X9: in the modes that run the z-window pass, a window of 1 or less
    makes [normalize_volume] raise [ValueError] on a volume whose
    traces hold two samples or more: a negative window is refused by
    the padding, and with a window of 0 or 1 the slice [pad_z:-pad_z]
    of the local mean is empty and cannot be subtracted. *)
Theorem normalize_volume_small_window (data : volume F) (n0 n1 n2 : nat)
  (mode : string) (z_window : Z) (eps : F)
  (Hs : has_shape data n0 n1 n2)
  (Hn0 : (0 < n0)%nat) (Hn1 : (0 < n1)%nat) (Hn2 : (2 <= n2)%nat)
  (Hmode : mode = "z"%string \/ mode = "both"%string)
  (Hw : (z_window <= 1)%Z) :
  normalize_volume data mode z_window eps = Raise ValueError.
Proof.
  assert (Hgen : forall result : volume F, has_shape result n0 n1 n2 ->
            (let zw := if (z_window mod 2 =? 0)%Z then (z_window + 1)%Z
                       else z_window in
             if (zw / 2 <? 0)%Z then Raise ValueError
             else mapM (mapM (normalize_z_trace zw eps)) result)
            = Raise ValueError).
  { intros result Hr. cbv zeta.
    set (zw := if (z_window mod 2 =? 0)%Z then (z_window + 1)%Z else z_window).
    destruct (Z.ltb_spec (zw / 2) 0) as [Hneg|Hpos]; [reflexivity|].
    assert (Hzw : zw = 1%Z).
    { subst zw. destruct (Z.eqb_spec (z_window mod 2) 0);
        Z.div_mod_to_equations; lia. }
    rewrite Hzw.
    destruct Hr as [H0 Hall].
    destruct result as [|plane rest]; [simpl in H0; lia|].
    inversion Hall as [|? ? [H1 Hrow] _]; subst.
    destruct plane as [|tr more]; [simpl in Hn1; lia|].
    inversion Hrow as [|? ? H2 _]; subst.
    apply mapM_raise. apply mapM_raise.
    destruct tr as [|x [|y tr]]; [simpl in Hn2; lia..|].
    unfold normalize_z_trace. change (1 / 2)%Z with 0%Z.
    unfold Np.pad_reflect. cbn [Z.ltb Z.compare bind].
    unfold local_mean. cbn [Z.ltb Z.compare Z.opp].
    unfold Py.slice, Py.slice_bound. cbn [Z.ltb Z.compare].
    rewrite !Z.min_l by lia. cbn [Z.sub Z.opp Z.add Z.to_nat firstn].
    reflexivity. }
  unfold normalize_volume.
  destruct Hmode as [-> | ->]; cbn [String.eqb Ascii.eqb Bool.eqb mode_in existsb orb].
  - now apply Hgen.
  - apply Hgen. apply map_shape; [apply normalize_trace_length | exact Hs].
Qed.

(** X10: an even window is moved to the next odd one: a call with an
    even [z_window] returns what the call with [z_window + 1] returns,
    in every mode. *)
Theorem normalize_volume_even_window (data : volume F) (mode : string)
  (z_window : Z) (eps : F) (Heven : (z_window mod 2 = 0)%Z) :
  normalize_volume data mode z_window eps
  = normalize_volume data mode (z_window + 1) eps.
Proof.
  unfold normalize_volume.
  replace (z_window mod 2 =? 0)%Z with true by (symmetry; now apply Z.eqb_eq).
  replace ((z_window + 1) mod 2 =? 0)%Z with false
    by (symmetry; apply Z.eqb_neq; Z.div_mod_to_equations; lia).
  reflexivity.
Qed.

End NormalizeShape.

Lemma normalize_volume_shape_witness :
  exists out,
    normalize_volume [[[1; 2; 3]]]%R "both" 9 (1 / 1000000)%R = Ok out /\
    has_shape out 1 1 3.
Proof.
  apply (@normalize_volume_shape R Arith_R [[[1; 2; 3]]]%R 1 1 3
           "both"%string 9%Z (1 / 1000000)%R).
  - split; [reflexivity | repeat constructor].
  - lia.
  - lia.
Defined.

Lemma normalize_volume_small_window_witness :
  normalize_volume [[[1; 2; 3]]]%R "z" 1 (1 / 1000000)%R = Raise ValueError.
Proof.
  apply (@normalize_volume_small_window R Arith_R [[[1; 2; 3]]]%R 1 1 3
           "z"%string 1%Z (1 / 1000000)%R).
  - split; [reflexivity | repeat constructor].
  - lia.
  - lia.
  - lia.
  - left. reflexivity.
  - lia.
Defined.

Lemma normalize_volume_even_window_witness :
  normalize_volume [[[1; 2; 3]]]%R "both" 8 (1 / 1000000)%R
  = normalize_volume [[[1; 2; 3]]]%R "both" (8 + 1) (1 / 1000000)%R.
Proof.
  apply (@normalize_volume_even_window R Arith_R [[[1; 2; 3]]]%R
           "both"%string 8%Z (1 / 1000000)%R).
  reflexivity.
Defined.

(** ** Trace normalisation in exact arithmetic *)

Lemma Forall2_map_r {A B : Type} (P : A -> B -> Prop) (g : A -> B) (l : list A) :
  (forall x, In x l -> P x (g x)) -> Forall2 P l (map g l).
Proof.
  induction l as [|x l IH]; intros Hg; simpl; constructor.
  - apply Hg. now left.
  - apply IH. intros y Hy. apply Hg. now right.
Qed.

Section TraceReal.

Open Scope R_scope.

Lemma mean_Rsum (tr : list R) :
  Np.mean tr = Rsum tr / INR (List.length tr).
Proof.
  unfold Np.mean. cbn [f_div f_add f_of_Z Arith_R].
  rewrite fold_left_Rsum, INR_IZR_INZ. f_equal. lra.
Qed.

Lemma Rsum_minus_const (m : R) (l : list R) :
  Rsum (map (fun x => x - m) l) = Rsum l - INR (List.length l) * m.
Proof.
  induction l as [|x l IH]; [simpl; lra|].
  cbn [map Rsum fold_right List.length]. fold (Rsum (map (fun x => x - m) l)).
  fold (Rsum l). rewrite IH, S_INR. lra.
Qed.

Lemma length_pos_INR {A : Type} (l : list A) : l <> [] -> 0 < INR (List.length l).
Proof.
  intros Hl. apply lt_0_INR. destruct l; [congruence | simpl; lia].
Qed.

Lemma variance_nonneg (tr : list R) (m : R) :
  0 <= Np.mean (map (fun x => Np.square (x - m)) tr).
Proof.
  rewrite mean_Rsum, length_map.
  destruct tr as [|x r].
  - simpl. unfold Rdiv. rewrite Rmult_0_l. lra.
  - apply Rmult_le_pos.
    + rewrite <- (map_map (fun x => x - m) (fun y => y * y)).
      apply Rsum_squares_nonneg.
    + left. apply Rinv_0_lt_compat. now apply length_pos_INR.
Qed.

Lemma normalized_mean (eps : R) (tr : list R) :
  tr <> [] -> Np.mean (normalize_trace eps tr) = 0.
Proof.
  intros Hne. pose proof (length_pos_INR Hne) as Hn.
  unfold normalize_trace. cbn [f_div f_sub f_add Arith_R].
  rewrite mean_Rsum, length_map.
  rewrite (Rsum_div (fun x => x - Np.mean tr)), Rsum_minus_const.
  rewrite (mean_Rsum tr).
  replace (Rsum tr - INR (List.length tr) * (Rsum tr / INR (List.length tr)))
    with 0 by (field; lra).
  unfold Rdiv. now rewrite !Rmult_0_l.
Qed.

Lemma normalized_std (eps : R) (tr : list R) :
  0 < eps -> tr <> [] ->
  Np.std (normalize_trace eps tr) = Np.std tr / (Np.std tr + eps).
Proof.
  intros Heps Hne. pose proof (length_pos_INR Hne) as Hn.
  assert (Hsd : 0 <= Np.std tr) by apply sqrt_pos.
  set (d := Np.std tr + eps). assert (Hd : 0 < d) by (subst d; lra).
  unfold Np.std at 1. cbn [f_sqrt f_sub Arith_R].
  rewrite normalized_mean by assumption.
  unfold normalize_trace. cbn [f_div f_sub f_add Arith_R]. fold d.
  rewrite map_map.
  rewrite (map_ext (fun x => Np.square ((x - Np.mean tr) / d - 0))
                   (fun x => Np.square (x - Np.mean tr) / (d * d)))
    by (intros x; unfold Np.square; cbn [f_mul Arith_R]; field; lra).
  rewrite mean_Rsum, length_map.
  rewrite (Rsum_div (fun x => Np.square (x - Np.mean tr))).
  replace (Rsum (map (fun x => Np.square (x - Np.mean tr)) tr) / (d * d)
           / INR (List.length tr))
    with (Np.mean (map (fun x => Np.square (x - Np.mean tr)) tr) / (d * d))
    by (rewrite mean_Rsum, length_map; field; lra).
  rewrite sqrt_div_alt by nra.
  rewrite sqrt_square by lra. reflexivity.
Qed.

(** X11: in mode ["trace"], with [eps > 0] and traces that hold at
    least one sample, every output trace has mean 0 and standard
    deviation [std / (std + eps)], which lies in [0, 1). *)
Theorem normalize_trace_zero_mean (data : volume R) (n0 n1 n2 : nat)
  (z_window : Z) (eps : R)
  (Heps : 0 < eps) (Hs : has_shape data n0 n1 n2) (Hn2 : (0 < n2)%nat) :
  exists out,
    normalize_volume data "trace" z_window eps = Ok out /\
    Forall2 (Forall2 (fun tr o =>
                        Np.mean o = 0 /\
                        Np.std o = Np.std tr / (Np.std tr + eps) /\
                        0 <= Np.std o < 1)) data out.
Proof.
  eexists. split; [reflexivity|].
  destruct Hs as [_ Hall]. rewrite Forall_forall in Hall.
  apply Forall2_map_r. intros plane Hp.
  destruct (Hall plane Hp) as [_ Hrow]. rewrite Forall_forall in Hrow.
  apply Forall2_map_r. intros tr Ht.
  assert (Hne : tr <> []).
  { intros ->. specialize (Hrow [] Ht). simpl in Hrow. lia. }
  split; [now apply normalized_mean|].
  rewrite normalized_std by assumption.
  assert (Hsd : 0 <= Np.std tr) by apply sqrt_pos.
  split; [reflexivity|]. split.
  - apply Rmult_le_pos; [assumption|]. left. apply Rinv_0_lt_compat. lra.
  - apply div_lt_l; lra.
Qed.

Lemma normalize_trace_zero_mean_witness :
  exists out,
    normalize_volume [[[1; 2; 3]]] "trace" 9 (1 / 1000000) = Ok out /\
    Forall2 (Forall2 (fun tr o =>
                        Np.mean o = 0 /\
                        Np.std o = Np.std tr / (Np.std tr + 1 / 1000000) /\
                        0 <= Np.std o < 1)) [[[1; 2; 3]]] out.
Proof.
  apply (@normalize_trace_zero_mean [[[1; 2; 3]]] 1 1 3 9%Z (1 / 1000000)).
  - lra.
  - split; [reflexivity | repeat constructor].
  - lia.
Defined.

Lemma mean_shift (b : R) (tr : list R) :
  tr <> [] -> Np.mean (map (fun x => x + b) tr) = Np.mean tr + b.
Proof.
  intros Hne. pose proof (length_pos_INR Hne) as Hn.
  rewrite !mean_Rsum, length_map.
  rewrite (Rsum_plus (fun x => x) (fun _ => b)), map_id.
  assert (Hc : Rsum (map (fun _ : R => b) tr) = INR (List.length tr) * b).
  { clear. induction tr as [|x l IH]; [simpl; lra|].
    cbn [map Rsum fold_right List.length]. fold (Rsum (map (fun _ : R => b) l)).
    rewrite IH, S_INR. lra. }
  rewrite Hc. field. lra.
Qed.

Lemma normalize_trace_shift (eps b : R) (tr : list R) :
  normalize_trace eps (map (fun x => x + b) tr) = normalize_trace eps tr.
Proof.
  destruct tr as [|x0 r]; [reflexivity|].
  assert (Hne : x0 :: r <> []) by discriminate.
  set (tr := x0 :: r) in *.
  assert (Hstd : Np.std (map (fun x => x + b) tr) = Np.std tr).
  { unfold Np.std. rewrite mean_shift by assumption. rewrite map_map.
    f_equal. f_equal. apply map_ext. intros x.
    cbn [f_sub Arith_R]. f_equal; lra. }
  unfold normalize_trace. rewrite Hstd, mean_shift by assumption.
  rewrite map_map. apply map_ext. intros x.
  cbn [f_div f_sub f_add Arith_R]. f_equal. lra.
Qed.

(** X12: mode ["trace"] removes a constant offset: adding the same
    number to every sample of the volume does not change the result. *)
Theorem normalize_trace_offset (data : volume R) (z_window : Z) (eps b : R) :
  normalize_volume (map (map (map (fun x => x + b))) data) "trace" z_window eps
  = normalize_volume data "trace" z_window eps.
Proof.
  unfold normalize_volume.
  cbn [String.eqb Ascii.eqb Bool.eqb mode_in existsb orb].
  f_equal. rewrite map_map. apply map_ext. intros plane.
  rewrite map_map. apply map_ext. intros tr.
  apply normalize_trace_shift.
Qed.

End TraceReal.

(** ** Flat volumes under normalisation *)

Lemma skipn_repeat {A : Type} (c : A) (k : nat) :
  forall n, skipn k (repeat c n) = repeat c (n - k).
Proof.
  induction k as [|k IH]; intros [|n]; simpl; auto.
Qed.

Lemma firstn_repeat {A : Type} (c : A) (k : nat) :
  forall n, firstn k (repeat c n) = repeat c (Nat.min k n).
Proof.
  induction k as [|k IH]; intros [|n]; simpl; auto. now rewrite IH.
Qed.

Lemma mapM_repeat {A B : Type} (f : A -> result B) (x : A) (y : B) (n : nat) :
  f x = Ok y -> mapM f (repeat x n) = Ok (repeat y n).
Proof.
  intros Hx. induction n as [|n IH]; simpl; [reflexivity|].
  now rewrite Hx, IH.
Qed.

Section FlatReal.

Open Scope R_scope.

Lemma Rsum_repeat (c : R) (n : nat) : Rsum (repeat c n) = INR n * c.
Proof.
  induction n as [|n IH]; [simpl; lra|].
  cbn [repeat Rsum fold_right]. fold (Rsum (repeat c n)).
  rewrite IH, S_INR. lra.
Qed.

Lemma normalize_trace_const (eps c : R) (n : nat) :
  normalize_trace eps (repeat c n) = repeat 0 n.
Proof.
  destruct n as [|n]; [reflexivity|].
  assert (Hm : Np.mean (repeat c (S n)) = c).
  { rewrite mean_Rsum, Rsum_repeat, repeat_length.
    field. apply not_0_INR. lia. }
  unfold normalize_trace. rewrite Hm, map_repeat. f_equal.
  cbn [f_div f_sub Arith_R]. unfold Rdiv. ring.
Qed.

Lemma pad_reflect_const (pad : Z) (c : R) (n : nat) :
  (0 <= pad)%Z -> (0 < n)%nat ->
  Np.pad_reflect pad (repeat c n) = Ok (repeat c (n + 2 * Z.to_nat pad)).
Proof.
  intros Hp Hn. unfold Np.pad_reflect.
  replace (pad <? 0)%Z with false by (symmetry; apply Z.ltb_ge; lia).
  destruct n as [|n]; [lia|].
  change (repeat c (S n)) with (c :: repeat c n) at 1. cbv beta iota.
  change (c :: repeat c n) with (repeat c (S n)).
  rewrite repeat_length. f_equal.
  apply map_seq_const. intros k. apply nth_repeat.
Qed.

Lemma local_mean_const (z_window : Z) (c : R) (n : nat) :
  (3 <= z_window)%Z ->
  local_mean z_window (z_window / 2)
             (repeat c (n + 2 * Z.to_nat (z_window / 2)))
  = repeat c n.
Proof.
  intros Hw.
  assert (Hpad : (0 < z_window / 2)%Z) by (Z.div_mod_to_equations; lia).
  unfold local_mean.
  replace (1 <? z_window)%Z with true by (symmetry; apply Z.ltb_lt; lia).
  rewrite uniform_filter1d_constant; [|lia|apply sample_stable; lia].
  unfold Py.slice, Py.slice_bound. rewrite repeat_length.
  replace (z_window / 2 <? 0)%Z with false by (symmetry; apply Z.ltb_ge; lia).
  replace (- (z_window / 2) <? 0)%Z with true by (symmetry; apply Z.ltb_lt; lia).
  rewrite skipn_repeat, firstn_repeat. f_equal. lia.
Qed.

Lemma normalize_z_trace_const (z_window : Z) (eps c : R) (n : nat) :
  (3 <= z_window)%Z -> (0 < n)%nat ->
  normalize_z_trace z_window eps (repeat c n) = Ok (repeat 0 n).
Proof.
  intros Hw Hn.
  assert (Hpad : (0 < z_window / 2)%Z) by (Z.div_mod_to_equations; lia).
  unfold normalize_z_trace.
  rewrite pad_reflect_const by lia. cbn [bind].
  unfold local_std, local_var.
  rewrite map_repeat, !local_mean_const by assumption.
  rewrite map_repeat, map2_repeat, map_repeat.
  rewrite broadcast2_same by now rewrite !repeat_length.
  cbn [bind]. rewrite map2_repeat.
  rewrite broadcast2_same by now rewrite !repeat_length.
  rewrite map2_repeat. f_equal. f_equal.
  cbn [f_div f_sub Arith_R]. unfold Rdiv. ring.
Qed.

(** X13: a constant volume is normalised to zeros: for [eps > 0],
    traces of at least one sample and a window of at least 2, the
    modes ["trace"], ["z"] and ["both"] return the volume of the same
    shape whose samples are all 0. *)
Theorem normalize_volume_flat (n0 n1 n2 : nat) (c : R) (mode : string)
  (z_window : Z) (eps : R)
  (Heps : 0 < eps) (Hn2 : (0 < n2)%nat) (Hw : (2 <= z_window)%Z)
  (Hmode : In mode ["trace"; "z"; "both"]%string) :
  normalize_volume (const_volume n0 n1 n2 c) mode z_window eps
  = Ok (const_volume n0 n1 n2 0).
Proof.
  destruct (@odd_window z_window Hw) as [Hodd Hpad].
  assert (Hz : forall c', mapM (mapM (normalize_z_trace
                 (if (z_window mod 2 =? 0)%Z then (z_window + 1)%Z
                  else z_window) eps)) (const_volume n0 n1 n2 c')
               = Ok (const_volume n0 n1 n2 0)).
  { intros c'. unfold const_volume.
    apply mapM_repeat, mapM_repeat. now apply normalize_z_trace_const. }
  assert (Ht : map (map (normalize_trace eps)) (const_volume n0 n1 n2 c)
               = const_volume n0 n1 n2 0).
  { unfold const_volume. now rewrite !map_repeat, normalize_trace_const. }
  unfold normalize_volume.
  destruct Hmode as [<-|[<-|[<-|[]]]];
    cbn [String.eqb Ascii.eqb Bool.eqb mode_in existsb orb];
    rewrite ?Hpad, ?Ht; try apply Hz; reflexivity.
Qed.

Lemma normalize_volume_flat_witness :
  normalize_volume (const_volume 2 2 3 5) "both" 9 (1 / 1000000)
  = Ok (const_volume 2 2 3 0).
Proof.
  apply (@normalize_volume_flat 2 2 3 5 "both"%string 9%Z (1 / 1000000)).
  - lra.
  - lia.
  - lia.
  - simpl. tauto.
Defined.

End FlatReal.

(** ** Coherence: shape *)

Section CoherenceRange.

Open Scope R_scope.

Lemma uniform_filter_clip (data : volume R) (s0 s1 s2 : Z) :
  Np.uniform_filter data s0 s1 s2
  = Np.uniform_filter data (Z.max 1 s0) (Z.max 1 s1) (Z.max 1 s2).
Proof.
  assert (Hclip : forall (A : Type) (s : Z) (g : Z -> A) (x : A),
             (if (1 <? s)%Z then g s else x)
             = (if (1 <? Z.max 1 s)%Z then g (Z.max 1 s) else x)).
  { intros A s g x. destruct (Z.ltb_spec 1 s) as [Hs|Hs].
    - rewrite Z.max_r by lia.
      now replace (1 <? s)%Z with true by (symmetry; apply Z.ltb_lt; lia).
    - rewrite Z.max_l by lia. reflexivity. }
  unfold Np.uniform_filter.
  rewrite (Hclip _ s0 (fun s => Np.uniform_filter1d s data) data).
  set (a0 := if (1 <? Z.max 1 s0)%Z then _ else _).
  rewrite (Hclip _ s1 (fun s => map (Np.uniform_filter1d s) a0) a0).
  set (a1 := if (1 <? Z.max 1 s1)%Z then _ else _).
  exact (Hclip _ s2 (fun s => map (map (Np.uniform_filter1d s)) a1) a1).
Qed.

Lemma tab3_shape (n0 n1 n2 : nat) (f : nat -> nat -> nat -> R) :
  has_shape (tab3 n0 n1 n2 f) n0 n1 n2.
Proof.
  unfold tab3. split; [apply tab_length|].
  apply Forall_forall. intros plane Hp. unfold tab in Hp.
  apply in_map_iff in Hp. destruct Hp as [i [<- _]].
  split; [apply tab_length|].
  apply Forall_forall. intros tr Ht. unfold tab in Ht.
  apply in_map_iff in Ht. destruct Ht as [j [<- _]]. apply tab_length.
Qed.

(** X14: [coherence_3d] returns a volume of the shape of its input, for
    every patch size. *)
Theorem coherence_3d_shape (data : volume R) (n0 n1 n2 : nat)
  (patch_size : Z * Z * Z) (Hs : has_shape data n0 n1 n2) :
  has_shape (coherence_3d data patch_size) n0 n1 n2.
Proof.
  destruct patch_size as [[py px] pz].
  rewrite (shape_tab3 Hs). unfold coherence_3d.
  rewrite map3_tab3.
  rewrite (uniform_filter_clip (tab3 n0 n1 n2 (sample_at data)) py px pz).
  rewrite (uniform_filter_clip
             (tab3 n0 n1 n2 (fun i j k => Np.square (sample_at data i j k)))
             py px pz).
  rewrite !uniform_filter_tab3 by lia.
  rewrite map2_tab3. apply tab3_shape.
Qed.

Lemma coherence_3d_shape_witness :
  has_shape (coherence_3d [[[1; 2]; [3; 4]]] (3, 3, 3)%Z) 1 2 2.
Proof.
  apply (@coherence_3d_shape [[[1; 2]; [3; 4]]] 1 2 2 (3, 3, 3)%Z).
  split; [reflexivity | repeat constructor].
Defined.

(** The square of a sum is at most the count times the sum of the
    squares. *)
Lemma sum_square_le (l : list R) :
  Rsum l * Rsum l <= INR (List.length l) * Rsum (map (fun x => x * x) l).
Proof.
  induction l as [|x l IH]; [simpl; lra|].
  cbn [map Rsum fold_right List.length].
  fold (Rsum l). fold (Rsum (map (fun x => x * x) l)).
  rewrite S_INR.
  pose proof (Rsum_squares_nonneg l) as Hq.
  pose proof (pos_INR (List.length l)) as Hn.
  set (u := Rsum l) in *. set (q := Rsum (map (fun x => x * x) l)) in *.
  set (n := INR (List.length l)) in *.
  assert (Hx : 2 * u * x <= q + n * (x * x)).
  { destruct (Req_dec n 0) as [E|E].
    - assert (Hss : u * u = 0).
      { apply Rle_antisym; [rewrite E in IH; lra | apply Rle_0_sqr]. }
      apply Rmult_integral in Hss. assert (u = 0) by tauto. nra.
    - assert (H0 : 0 < n) by lra.
      pose proof (Rle_0_sqr (u - n * x)) as Hsq. unfold Rsqr in Hsq.
      apply (Rmult_le_reg_l n); [assumption|]. nra. }
  nra.
Qed.

End CoherenceRange.

(** ** The clamp of the local variance *)

Section VarianceReal.

Open Scope R_scope.

Lemma smooth_variance (size : Z) (n : nat) (h : nat -> R) (i : nat) :
  (1 <= size)%Z ->
  0 <= smooth size n (fun j => Np.square (h j)) i
       - Np.square (smooth size n h i).
Proof.
  intros Hs. unfold smooth, Np.square. cbn [f_mul Arith_R].
  set (w := map (fun d => h (Np.clamp n (Z.of_nat i + Z.of_nat d - size / 2)))
                (seq 0 (Z.to_nat size))).
  replace (map (fun d => h (Np.clamp n (Z.of_nat i + Z.of_nat d - size / 2))
                     * h (Np.clamp n (Z.of_nat i + Z.of_nat d - size / 2)))
               (seq 0 (Z.to_nat size)))
    with (map (fun x => x * x) w) by (subst w; now rewrite map_map).
  pose proof (sum_square_le w) as Hcs.
  assert (Hlen : INR (List.length w) = IZR size).
  { subst w. rewrite length_map, length_seq, INR_IZR_INZ. f_equal. lia. }
  rewrite Hlen in Hcs.
  assert (Hpos : 0 < IZR size) by (apply IZR_lt; lia).
  set (u := Rsum w) in *. set (q := Rsum (map (fun x => x * x) w)) in *.
  replace (q / IZR size - u / IZR size * (u / IZR size))
    with ((IZR size * q - u * u) / (IZR size * IZR size)) by (field; lra).
  apply Rmult_le_pos; [lra|]. left. apply Rinv_0_lt_compat. nra.
Qed.

(** X16: in exact arithmetic the local variance [E[x^2] - E[x]^2] of
    the z-window pass is never negative, whatever the window and the
    padding, so the clamp [np.maximum(local_var, 0)] leaves it as it
    is and the divisor is [sqrt(local_var) + eps]. *)
Theorem local_variance_nonneg (z_window pad_z : Z) (eps : R) (padded : list R) :
  Forall (fun v => 0 <= v) (local_var z_window pad_z padded) /\
  local_std z_window pad_z eps padded
  = map (fun v => sqrt v + eps) (local_var z_window pad_z padded).
Proof.
  assert (Hv : Forall (fun v => 0 <= v) (local_var z_window pad_z padded)).
  { unfold local_var, local_mean.
    set (n := List.length padded). set (h := fun i => nth i padded 0).
    assert (Hp : padded = tab n h) by apply tab_of_list.
    assert (Hfil : exists a b : nat -> R,
               (if (1 <? z_window)%Z
                then Np.uniform_filter1d z_window (map Np.square padded)
                else map Np.square padded) = tab n a /\
               (if (1 <? z_window)%Z
                then Np.uniform_filter1d z_window padded else padded)
               = tab n b /\
               forall i, 0 <= a i - Np.square (b i)).
    { destruct (Z.ltb_spec 1 z_window) as [Hw|Hw].
      - exists (smooth z_window n (fun j => Np.square (h j))),
               (smooth z_window n h).
        rewrite Hp at 1 2. rewrite map_tab, !uniform_filter1d_tab.
        repeat split.
        + apply tab_ext. intros i _. apply wmean_smooth. lia.
        + apply tab_ext. intros i _. apply wmean_smooth. lia.
        + intros i. apply smooth_variance. lia.
      - exists (fun j => Np.square (h j)), h.
        rewrite Hp at 1 2. rewrite map_tab. repeat split. intros i. lra. }
    destruct Hfil as (a & b & -> & -> & Hab).
    unfold tab. rewrite !slice_map, map_map, map2_map.
    apply Forall_forall. intros v Hin.
    apply in_map_iff in Hin. destruct Hin as [i [<- _]].
    cbn [f_sub Arith_R]. apply Hab. }
  split; [exact Hv|].
  unfold local_std. apply map_ext_in. intros v Hin.
  rewrite Forall_forall in Hv. specialize (Hv v Hin).
  cbn [f_add f_sqrt f_maximum f_of_Z Arith_R]. now rewrite Rmax_left.
Qed.

End VarianceReal.

(** ** The two paths of the loader inside the file *)

Section LoaderPaths.

Variables T F : Type.
Variable as_float32 : T -> F.

(** X18: on a file whose traces are laid out inline-major and whose
    dense array is made of those traces, the trace-by-trace path taken
    after a [MemoryError] returns, for ranges with
    [0 <= start < end <= extent] on every axis, the very volume the
    bulk path returns. *)
Theorem load_paths_agree (f : SegyFile T) (il xl z : option (Z * Z))
  (Hf : traces_ok f)
  (Hil : valid_range il (n_ilines f))
  (Hxl : valid_range xl (n_xlines f))
  (Hz : valid_range z (n_samples f)) :
  exists v,
    load_segy_cube as_float32 (with_cube f (Raise MemoryError)) il xl z None
    = Ok v /\
    load_segy_cube as_float32
      (with_cube f (Ok (cube_of_traces (n_ilines f) (n_xlines f) (trace f))))
      il xl z None
    = Ok v.
Proof.
  eexists. split.
  - apply (@load_grid T F as_float32 (with_cube f (Raise MemoryError))); try assumption.
    split; [exact Hf | right; reflexivity].
  - apply (@load_grid T F as_float32 (with_cube f (Ok _))); try assumption.
    split; [exact Hf | left; reflexivity].
Qed.

End LoaderPaths.

Lemma load_paths_agree_witness :
  exists v,
    load_segy_cube (fun x : Z => x) (small_file (Raise MemoryError))
                   (Some (1, 2)%Z) None (Some (0, 2)%Z) None = Ok v /\
    load_segy_cube (fun x : Z => x)
                   (small_file (Ok (cube_of_traces 2 2 (trace (small_file (Raise MemoryError))))))
                   (Some (1, 2)%Z) None (Some (0, 2)%Z) None = Ok v.
Proof.
  apply (@load_paths_agree Z Z (fun x => x) (small_file (Raise MemoryError))
           (Some (1, 2)%Z) None (Some (0, 2)%Z)).
  - apply small_file_traces_ok.
  - simpl. lia.
  - exact I.
  - simpl. lia.
Defined.

(** ** The two paths of the loader on a negative start *)

Lemma index_wrapped {A : Type} (l : list A) (i : Z) :
  (- Z.of_nat (List.length l) <= i < Z.of_nat (List.length l))%Z ->
  exists x, Py.index l i = Ok x /\ In x l.
Proof.
  intros Hi. unfold Py.index.
  set (j := if (i <? 0)%Z then (i + Z.of_nat (List.length l))%Z else i).
  assert (Hj : (0 <= j < Z.of_nat (List.length l))%Z).
  { subst j. destruct (Z.ltb_spec i 0); lia. }
  replace (0 <=? j)%Z with true by (symmetry; apply Z.leb_le; lia).
  replace (j <? Z.of_nat (List.length l))%Z with true
    by (symmetry; apply Z.ltb_lt; lia).
  cbn [andb].
  destruct (nth_error l (Z.to_nat j)) as [x|] eqn:E.
  - exists x. split; [reflexivity | exact (nth_error_In _ _ E)].
  - apply nth_error_None in E. lia.
Qed.

Section LoaderNegativeStart.

Variables T F : Type.
Variable as_float32 : T -> F.

Lemma read_traces_wrapped (f : SegyFile T) (a b a1 b1 a2 b2 : Z) :
  traces_ok f ->
  (- Z.of_nat (n_ilines f) <= a <= b)%Z -> (b <= Z.of_nat (n_ilines f))%Z ->
  (0 <= a1 <= b1)%Z /\ (b1 <= Z.of_nat (n_xlines f))%Z ->
  (0 <= a2 <= b2)%Z /\ (b2 <= Z.of_nat (n_samples f))%Z ->
  exists v,
    read_traces as_float32 f a b a1 b1 a2 b2 = Ok v /\
    List.length v = Z.to_nat (b - a).
Proof.
  intros [Hlen Hall] Ha Hb H1 H2. unfold read_traces.
  replace (b - a <? 0)%Z with false by (symmetry; apply Z.ltb_ge; lia).
  replace (b1 - a1 <? 0)%Z with false by (symmetry; apply Z.ltb_ge; lia).
  replace (b2 - a2 <? 0)%Z with false by (symmetry; apply Z.ltb_ge; lia).
  cbn [orb].
  match goal with
  | |- exists v, mapM ?g ?l = Ok v /\ _ =>
      destruct (@mapM_Forall2 _ _ g (fun _ _ => True) l) as [v [Hv HF]]
  end.
  - apply Forall_forall. intros il Hil. apply range_In in Hil.
    match goal with
    | |- exists y, mapM ?g ?l = Ok y /\ _ =>
        destruct (@mapM_Forall2 _ _ g (fun _ _ => True) l) as [row [Hrow _]];
          [|now exists row]
    end.
    apply Forall_forall. intros xl Hxl.
    apply range_In in Hxl.
    destruct (@index_wrapped _ (trace f)
                (il * Z.of_nat (n_xlines f) + xl)%Z) as [tr [Htr Hin]].
    { rewrite Hlen, Nat2Z.inj_mul. nia. }
    rewrite Htr. cbn [bind].
    rewrite Forall_forall in Hall. pose proof (Hall tr Hin) as Hn.
    unfold assign_row.
    rewrite slice_length by (rewrite ?Hn; lia).
    replace (Z.of_nat (Z.to_nat (b2 - a2)) =? b2 - a2)%Z with true
      by (symmetry; apply Z.eqb_eq; lia).
    eexists. split; [reflexivity | exact I].
  - exists v. split; [exact Hv|].
    rewrite <- (Forall2_length HF). apply range_length.
Qed.

(** X17: for a request whose inline start is negative and whose end is
    not, the two paths return different volumes on the same file: the
    bulk path counts the start from the end of the axis and returns
    [end - (start + n_ilines)] planes (none when that is negative), the
    trace-by-trace path returns [end - start] planes. *)
Theorem load_paths_differ (f : SegyFile T) (a b : Z) (xl z : option (Z * Z))
  (Hf : traces_ok f)
  (Ha : (- Z.of_nat (n_ilines f) <= a < 0)%Z)
  (Hb : (0 <= b <= Z.of_nat (n_ilines f))%Z)
  (Hxl : valid_range xl (n_xlines f))
  (Hz : valid_range z (n_samples f)) :
  exists vb vf,
    load_segy_cube as_float32
      (with_cube f (Ok (cube_of_traces (n_ilines f) (n_xlines f) (trace f))))
      (Some (a, b)) xl z None = Ok vb /\
    load_segy_cube as_float32 (with_cube f (Raise MemoryError))
      (Some (a, b)) xl z None = Ok vf /\
    List.length vb = Z.to_nat (b - (a + Z.of_nat (n_ilines f))) /\
    List.length vf = Z.to_nat (b - a) /\
    vb <> vf.
Proof.
  apply valid_range_bounds in Hxl, Hz.
  destruct (@read_traces_wrapped f a b
              (range_start xl) (range_end xl (n_xlines f))
              (range_start z) (range_end z (n_samples f)) Hf)
    as [vf [Hvf Hlf]]; try assumption; try lia.
  assert (Hval : ((b >? Z.of_nat (n_ilines f))
                  || (range_end xl (n_xlines f) >? Z.of_nat (n_xlines f))
                  || (range_end z (n_samples f) >? Z.of_nat (n_samples f)))%Z
                 = false).
  { rewrite !Z.gtb_ltb.
    replace (Z.of_nat (n_ilines f) <? b)%Z with false
      by (symmetry; apply Z.ltb_ge; lia).
    replace (Z.of_nat (n_xlines f) <? range_end xl (n_xlines f))%Z with false
      by (symmetry; apply Z.ltb_ge; lia).
    replace (Z.of_nat (n_samples f) <? range_end z (n_samples f))%Z with false
      by (symmetry; apply Z.ltb_ge; lia).
    reflexivity. }
  set (c := cube_of_traces (n_ilines f) (n_xlines f) (trace f)).
  assert (Hc : List.length c = n_ilines f)
    by (subst c; unfold cube_of_traces; now rewrite length_map, length_seq).
  set (vb := crop as_float32 c a b (range_start xl) (range_end xl (n_xlines f))
                  (range_start z) (range_end z (n_samples f))).
  assert (Hlb : List.length vb = Z.to_nat (b - (a + Z.of_nat (n_ilines f)))).
  { subst vb. unfold crop. rewrite length_map.
    unfold Py.slice, Py.slice_bound. rewrite Hc.
    replace (a <? 0)%Z with true by (symmetry; apply Z.ltb_lt; lia).
    replace (b <? 0)%Z with false by (symmetry; apply Z.ltb_ge; lia).
    rewrite length_firstn, length_skipn, Hc. lia. }
  exists vb, vf. repeat split.
  - unfold load_segy_cube. cbn [with_cube n_ilines n_xlines n_samples cube
                                range_start range_end].
    now rewrite Hval.
  - unfold load_segy_cube. cbn [with_cube n_ilines n_xlines n_samples cube
                                range_start range_end].
    rewrite Hval. cbn [bind].
    change (read_traces as_float32 (with_cube f (Raise MemoryError)))
      with (read_traces as_float32 f).
    now rewrite Hvf.
  - exact Hlb.
  - exact Hlf.
  - intros E. apply (f_equal (@List.length _)) in E.
    rewrite Hlb, Hlf in E. lia.
Qed.

End LoaderNegativeStart.

Lemma load_paths_differ_witness :
  exists vb vf,
    load_segy_cube (fun x : Z => x)
      (with_cube (small_file (Raise MemoryError))
                 (Ok (cube_of_traces 2 2 (trace (small_file (Raise MemoryError))))))
      (Some (-1, 2)%Z) None None None = Ok vb /\
    load_segy_cube (fun x : Z => x)
      (with_cube (small_file (Raise MemoryError)) (Raise MemoryError))
      (Some (-1, 2)%Z) None None None = Ok vf /\
    List.length vb = Z.to_nat (2 - (-1 + 2)) /\
    List.length vf = Z.to_nat (2 - -1) /\
    vb <> vf.
Proof.
  apply (@load_paths_differ Z Z (fun x => x) (small_file (Raise MemoryError))
           (-1) 2 None None).
  - apply small_file_traces_ok.
  - simpl. lia.
  - simpl. lia.
  - exact I.
  - exact I.
Defined.
